(** * RMO texture channel separation: a model of [script.py]

    The script scans a folder, keeps the entries whose name carries the
    [_rmo] marker and a supported image extension, and writes every
    channel of the RGBA form of each such image as a grayscale PNG.

    The development follows the script top down: the string helpers the
    filter and the output names rely on, the image operations (PIL's
    [convert], [split] and the numpy inversion), a small file system with
    the exceptions the script can meet, and [process_texture_channels]
    itself, written in a state-and-exception monad. *)

From Stdlib Require Import ZArith Lia Bool Ascii String List.
From stdpp Require Import base option list strings gmap.

Local Open Scope Z_scope.

(** ** Strings

    File names are byte strings; [str.lower] is modelled on the ASCII
    letters and leaves every other byte alone. *)

Module Str.

Definition lower_char (c : ascii) : ascii :=
  let n := nat_of_ascii c in
  if ((65 <=? n) && (n <=? 90))%nat then ascii_of_nat (n + 32) else c.

(** [s.lower()] *)
Fixpoint lower (s : string) : string :=
  match s with
  | EmptyString => EmptyString
  | String c s' => String (lower_char c) (lower s')
  end.

(** [s.startswith(p)] *)
Fixpoint startswith (p s : string) : bool :=
  match p, s with
  | EmptyString, _ => true
  | String a p', String b s' => Ascii.eqb a b && startswith p' s'
  | String _ _, EmptyString => false
  end.

(** [sub in s] *)
Fixpoint contains (sub s : string) : bool :=
  startswith sub s ||
  match s with
  | EmptyString => false
  | String _ s' => contains sub s'
  end.

(** [s[n:]] *)
Fixpoint drop (n : nat) (s : string) : string :=
  match n, s with
  | O, _ => s
  | S n', String _ s' => drop n' s'
  | S _, EmptyString => EmptyString
  end.

(** [s[:n]] *)
Fixpoint take (n : nat) (s : string) : string :=
  match n, s with
  | O, _ => EmptyString
  | S n', String c s' => String c (take n' s')
  | S _, EmptyString => EmptyString
  end.

(** [s.endswith(suf)] for one suffix *)
Definition endswith (suf s : string) : bool :=
  (String.length suf <=? String.length s)%nat &&
  String.eqb (drop (String.length s - String.length suf) s) suf.

(** [s.endswith(sufs)] for a tuple of suffixes *)
Definition endswith_any (sufs : list string) (s : string) : bool :=
  existsb (fun suf => endswith suf s) sufs.

(** [s.rfind(c)] for a one-character [c], counting from [i]; [-1] when
    [c] does not occur. *)
Fixpoint rfind_from (c : ascii) (s : string) (i : Z) : Z :=
  match s with
  | EmptyString => -1
  | String a s' =>
      let r := rfind_from c s' (i + 1) in
      if 0 <=? r then r else if Ascii.eqb a c then i else -1
  end.

Definition rfind (c : ascii) (s : string) : Z := rfind_from c s 0.

(** The [while] loop of [genericpath._splitext]: is there a character
    other than the dot in [p[lo:hi]]? *)
Fixpoint has_non_dot (s : string) : bool :=
  match s with
  | EmptyString => false
  | String c s' => negb (Ascii.eqb c ".") || has_non_dot s'
  end.

(** [c not in s] for a one-character [c] *)
Fixpoint lacks (c : ascii) (s : string) : bool :=
  match s with
  | EmptyString => true
  | String a s' => negb (Ascii.eqb a c) && lacks c s'
  end.

(** [os.path.splitext(p)] (posixpath: separator [/], extension
    separator [.]). *)
Definition splitext (p : string) : string * string :=
  let sepIndex := rfind "/" p in
  let dotIndex := rfind "." p in
  if (sepIndex <? dotIndex) &&
     has_non_dot (take (Z.to_nat (dotIndex - (sepIndex + 1)))
                       (drop (Z.to_nat (sepIndex + 1)) p))
  then (take (Z.to_nat dotIndex) p, drop (Z.to_nat dotIndex) p)
  else (p, EmptyString).

End Str.

(** ** The eligibility filter (line 39 of the script) *)

Definition supported_formats : list string :=
  [".png"; ".jpg"; ".jpeg"; ".tga"; ".tif"; ".tiff"; ".bmp"; ".exr"]%string.

Definition eligible (filename : string) : bool :=
  Str.contains "_rmo" (Str.lower filename) &&
  Str.endswith_any supported_formats (Str.lower filename).

(** The filter in the words of the specification: [sub] occurs somewhere
    in [s], and [s] ends with [suf]. *)
Definition is_substring (sub s : string) : Prop :=
  exists pre post, s = (pre +:+ sub +:+ post)%string.

Definition is_suffix (suf s : string) : Prop :=
  exists pre, s = (pre +:+ suf)%string.

Definition spec_eligible (filename : string) : Prop :=
  is_substring "_rmo" (Str.lower filename) /\
  exists ext, ext ∈ supported_formats /\ is_suffix ext (Str.lower filename).


(** ** Images

    A decoded image has one of the four modes of the data model: gray,
    gray with alpha, RGB and RGBA.  Each band is an 8-bit plane; a pixel
    is an integer, and the only arithmetic the script does on it (the
    numpy subtraction on [uint8]) wraps modulo 256.

    A gray or RGB image may carry a transparency colour (the [tRNS]
    chunk of a PNG, [info['transparency']] in PIL), which [convert] turns
    into alpha.  PIL reads the pixel data when it is first used: an image
    whose data is cut short opens, with its mode, and fails on that first
    use. *)

Record plane := Plane { width : nat; height : nat; pixels : list Z }.

Inductive mode := L | LA | RGB | RGBA.

Inductive image :=
| ImgL (l : plane)
| ImgLA (l a : plane)
| ImgRGB (r g b : plane)
| ImgRGBA (r g b a : plane)
| ImgLKey (l : plane) (key : Z)
| ImgRGBKey (r g b : plane) (key : Z * Z * Z)
| ImgTruncated (m : mode).

Definition image_mode (img : image) : mode :=
  match img with
  | ImgL _ | ImgLKey _ _ => L
  | ImgLA _ _ => LA
  | ImgRGB _ _ _ | ImgRGBKey _ _ _ _ => RGB
  | ImgRGBA _ _ _ _ => RGBA
  | ImgTruncated m => m
  end.

Definition is_truncated (img : image) : bool :=
  match img with ImgTruncated _ => true | _ => false end.

Definition mode_eqb (a b : mode) : bool :=
  match a, b with
  | L, L | LA, LA | RGB, RGB | RGBA, RGBA => true
  | _, _ => false
  end.

(** Number of bands the file itself carries. *)
Definition channel_count (img : image) : nat :=
  match image_mode img with
  | L => 1
  | LA => 2
  | RGB => 3
  | RGBA => 4
  end.

(** The alpha band PIL adds to an image that has none. *)
Definition opaque (p : plane) : plane :=
  Plane (width p) (height p) (repeat 255 (width p * height p)).

(** The alpha band PIL makes of a transparency colour: 0 where the
    pixel has that colour, 255 elsewhere. *)
Definition keyed_alpha (key v : Z) : Z := if v =? key then 0 else 255.

Definition alpha_of_gray_key (l : plane) (key : Z) : plane :=
  Plane (width l) (height l) (map (keyed_alpha key) (pixels l)).

Fixpoint keyed_alpha_rgb (key : Z * Z * Z) (r g b : list Z) : list Z :=
  match r, g, b with
  | x :: r', y :: g', z :: b' =>
      (if (x =? key.1.1) && (y =? key.1.2) && (z =? key.2) then 0 else 255)
      :: keyed_alpha_rgb key r' g' b'
  | _, _, _ => []
  end.

Definition alpha_of_rgb_key (r g b : plane) (key : Z * Z * Z) : plane :=
  Plane (width r) (height r) (keyed_alpha_rgb key (pixels r) (pixels g) (pixels b)).

Definition has_transparency (img : image) : bool :=
  match img with
  | ImgLKey _ _ | ImgRGBKey _ _ _ _ => true
  | _ => false
  end.

(** [img.convert('RGBA')] on the pixel data *)
Definition convert_RGBA (img : image) : image :=
  match img with
  | ImgL l => ImgRGBA l l l (opaque l)
  | ImgLA l a => ImgRGBA l l l a
  | ImgRGB r g b => ImgRGBA r g b (opaque r)
  | ImgRGBA r g b a => ImgRGBA r g b a
  | ImgLKey l key => ImgRGBA l l l (alpha_of_gray_key l key)
  | ImgRGBKey r g b key => ImgRGBA r g b (alpha_of_rgb_key r g b key)
  | ImgTruncated _ => ImgTruncated RGBA
  end.

(** [img.split()] on the pixel data *)
Definition split (img : image) : list plane :=
  match img with
  | ImgL l | ImgLKey l _ => [l]
  | ImgLA l a => [l; a]
  | ImgRGB r g b | ImgRGBKey r g b _ => [r; g; b]
  | ImgRGBA r g b a => [r; g; b; a]
  | ImgTruncated _ => []
  end.

(** [255 - v] on a [uint8] *)
Definition rsub255 (v : Z) : Z := (255 - v) mod 256.

(** [Image.fromarray(255 - np.array(channel))] *)
Definition invert (ch : plane) : plane :=
  Plane (width ch) (height ch) (map rsub255 (pixels ch)).

Definition uint8 (v : Z) : Prop := 0 <= v <= 255.

(** ** The file system, the log and exceptions

    A path is the list of its components, as the operating system
    resolves it, so that two spellings of one folder are one path; the
    root is the empty list and always exists.  The store maps the paths
    that exist to a folder or to a file.  The calls of the script that
    can fail return the exception instead of a value.  The order in
    which [os.listdir] returns the names is the order of the store.

    The environment of a run is fixed, and no call of the script
    changes it: the paths the process may not create or write, the paths
    it may not read, and the lines its standard output refuses, with the
    exception [print] then raises (a name the console cannot encode, a
    closed stream). *)

Abbreviation path := (list string).

(** What [Image.open] and the decoder make of a file's bytes.  A file is
    kept as the image it decodes to: the PNG encoder is a function of the
    plane it is given, so two files holding the same plane hold the same
    bytes. *)
Inductive content :=
| Garbage
| Picture (img : image).

Inductive node :=
| File (c : content)
| Dir.

Inductive exn :=
| FileNotFoundError
| FileExistsError
| NotADirectoryError
| IsADirectoryError
| PermissionError
| UnidentifiedImageError
| IndexError
| OSError
| UnicodeEncodeError.

(** The three [print] calls of the script. *)
Inductive log_line :=
| Saved (output_path : path)
| Processed (filename : string)
| ErrorProcessing (filename : string) (e : exn).

Record environment := Environment {
  write_denied : gset path;
  read_denied : gset path;
  refused : log_line -> option exn
}.

Record world := World {
  nodes : gmap path node;
  env : environment;
  log : list log_line
}.

(** [denied] lists the paths the process may not create or write,
    [unreadable] those it may not read; [stdout w l] is the exception
    [print] raises on the line [l], if any. *)
Definition denied (w : world) : gset path := write_denied (env w).
Definition unreadable (w : world) : gset path := read_denied (env w).
Definition stdout (w : world) (l : log_line) : option exn := refused (env w) l.

Inductive result (A : Type) :=
| Ok (a : A)
| Raise (e : exn).
Arguments Ok {A} a.
Arguments Raise {A} e.

Definition M (A : Type) : Type := world -> result A * world.

Definition ret {A} (a : A) : M A := fun w => (Ok a, w).
Definition raise {A} (e : exn) : M A := fun w => (Raise e, w).
Definition bind {A B} (m : M A) (k : A -> M B) : M B :=
  fun w =>
    match m w with
    | (Ok a, w') => k a w'
    | (Raise e, w') => (Raise e, w')
    end.

(** [try: m  except Exception as e: h e] *)
Definition try_except {A} (m : M A) (h : exn -> M A) : M A :=
  fun w =>
    match m w with
    | (Ok a, w') => (Ok a, w')
    | (Raise e, w') => h e w'
    end.

Notation "x <- m ;; k" := (bind m (fun x => k))
  (at level 100, m at next level, right associativity).
Notation "m ;;; k" := (bind m (fun _ => k))
  (at level 100, right associativity).

(** [for x in xs: body x] *)
Fixpoint for_each {A} (xs : list A) (body : A -> M unit) : M unit :=
  match xs with
  | [] => ret tt
  | x :: xs' => body x ;;; for_each xs' body
  end.

(** [print(l)] *)
Definition print (l : log_line) : M unit :=
  fun w =>
    match stdout w l with
    | Some e => raise e w
    | None => (Ok tt, World (nodes w) (env w) (log w ++ [l]))
    end.

(** [os.path.join(d, n)] for an entry name [n]: folders are given by
    their components. *)
Definition path_join (d : path) (n : string) : path := d ++ [n].

Definition parent (p : path) : path := take (length p - 1) p.

Definition lookup_node (w : world) (p : path) : option node :=
  match p with
  | [] => Some Dir
  | _ => nodes w !! p
  end.

(** [os.path.exists(p)] *)
Definition path_exists (p : path) : M bool :=
  fun w => (Ok (bool_decide (is_Some (lookup_node w p))), w).

Definition set_node (p : path) (n : node) : M unit :=
  fun w => (Ok tt, World (<[p := n]> (nodes w)) (env w) (log w)).

(** [os.mkdir(p)] *)
Definition mkdir (p : path) : M unit :=
  fun w =>
    match lookup_node w p with
    | Some _ => raise FileExistsError w
    | None =>
        match lookup_node w (parent p) with
        | None => raise FileNotFoundError w
        | Some (File _) => raise NotADirectoryError w
        | Some Dir =>
            if bool_decide (p ∈ denied w) then raise PermissionError w
            else set_node p Dir w
        end
    end.

(** [os.makedirs(p)], on the first [n] components of [p]: the parent
    is made first when it is missing, then the folder itself. *)
Fixpoint makedirs_upto (n : nat) (p : path) : M unit :=
  match n with
  | O => mkdir []
  | S n' =>
      (if (0 <? n')%nat then
         e <- path_exists (take n' p) ;;
         if negb e then
           try_except (makedirs_upto n' p)
             (fun ex => match ex with
                        | FileExistsError => ret tt
                        | _ => raise ex
                        end)
         else ret tt
       else ret tt) ;;;
      mkdir (take (S n') p)
  end.

Definition makedirs (p : path) : M unit := makedirs_upto (length p) p.

(** The names [os.listdir] sees in [d], from the paths of the store. *)
Definition child_name (d p : path) : option string :=
  match drop (length d) p with
  | [n] => if bool_decide (take (length d) p = d) then Some n else None
  | _ => None
  end.

Definition children (w : world) (d : path) : list string :=
  omap (fun pn => child_name d pn.1) (map_to_list (nodes w)).

(** [os.listdir(d)] *)
Definition listdir (d : path) : M (list string) :=
  fun w =>
    match lookup_node w d with
    | None => raise FileNotFoundError w
    | Some (File _) => raise NotADirectoryError w
    | Some Dir =>
        if bool_decide (d ∈ unreadable w) then raise PermissionError w
        else (Ok (children w d), w)
    end.

(** [Image.open(p)]: the file is opened and its header read. *)
Definition Image_open (p : path) : M image :=
  fun w =>
    match lookup_node w p with
    | None => raise FileNotFoundError w
    | Some Dir => raise IsADirectoryError w
    | Some (File c) =>
        if bool_decide (p ∈ unreadable w) then raise PermissionError w
        else match c with
             | Garbage => raise UnidentifiedImageError w
             | Picture img => (Ok img, w)
             end
    end.

(** The first use of the pixel data. *)
Definition load (img : image) : M image :=
  if is_truncated img then raise OSError else ret img.

(** [img.convert('RGBA')] *)
Definition Image_convert_RGBA (img : image) : M image :=
  img <- load img ;; ret (convert_RGBA img).

(** [img.split()] *)
Definition Image_split (img : image) : M (list plane) :=
  img <- load img ;; ret (split img).

(** [channel.save(p)]: the plane is written as an 8-bit grayscale PNG,
    which reads back as an image of mode [L]. *)
Definition save (ch : plane) (p : path) : M unit :=
  fun w =>
    match lookup_node w (parent p) with
    | None => raise FileNotFoundError w
    | Some (File _) => raise NotADirectoryError w
    | Some Dir =>
        match lookup_node w p with
        | Some Dir => raise IsADirectoryError w
        | _ =>
            if bool_decide (p ∈ denied w) then raise PermissionError w
            else set_node p (File (Picture (ImgL ch))) w
        end
    end.

(** ** The script *)

Record config := Config {
  input_folder : path;
  output_folder : path;
  invert_channels : option (list string);
  create_subfolders : bool
}.

(** The value a call hands back to its caller. *)
Inductive pyvalue :=
| PyNone
| PyTuple (count_processed count_failed : nat).

(** Lines 26-31: a dict, iterated in insertion order. *)
Definition channel_info : list (string * nat) :=
  [("_r", 0); ("_g", 1); ("_b", 2); ("_a", 3)]%string%nat.

(** [suffix[1]] *)
Definition letter (suffix : string) : M string :=
  match String.get 1 suffix with
  | Some c => ret (String c EmptyString)
  | None => raise IndexError
  end.

(** [invert_channels and x in invert_channels] *)
Definition wants_invert (inv : option (list string)) (x : string) : bool :=
  match inv with
  | None => false
  | Some [] => false
  | Some l => bool_decide (x ∈ l)
  end.

(** Lines 22-23 and 59-60: create the folder unless it is there. *)
Definition ensure_dir (p : path) : M unit :=
  e <- path_exists p ;;
  if negb e then makedirs p else ret tt.

(** Lines 68-81: one turn of the loop over [channel_info]. *)
Definition process_channel (cfg : config) (channels : list plane)
    (base_name : string) (output_dir : path) (sc : string * nat) : M unit :=
  let '(suffix, channel_index) := sc in
  if (channel_index <? length channels)%nat then
    match channels !! channel_index with
    | None => raise IndexError
    | Some channel =>
        x <- letter suffix ;;
        let channel :=
          if wants_invert (invert_channels cfg) x then invert channel
          else channel in
        let output_filename := (base_name +:+ suffix +:+ ".png")%string in
        let output_path := path_join output_dir output_filename in
        save channel output_path ;;;
        print (Saved output_path)
    end
  else ret tt.

(** Lines 41-83: the body of the [try]. *)
Definition process_file (cfg : config) (filename : string) : M unit :=
  let img_path := path_join (input_folder cfg) filename in
  img <- Image_open img_path ;;
  img <- (if negb (mode_eqb (image_mode img) RGBA) then Image_convert_RGBA img
          else ret img) ;;
  channels <- Image_split img ;;
  let base_name := (Str.splitext filename).1 in
  output_dir <-
    (if create_subfolders cfg then
       let subfolder_path := path_join (output_folder cfg) base_name in
       ensure_dir subfolder_path ;;;
       ret subfolder_path
     else ret (output_folder cfg)) ;;
  for_each channel_info
    (process_channel cfg channels base_name output_dir) ;;;
  print (Processed filename).

(** Lines 39-86: one turn of the loop over the directory entries. *)
Definition process_entry (cfg : config) (filename : string) : M unit :=
  if eligible filename then
    try_except (process_file cfg filename)
      (fun e => print (ErrorProcessing filename e))
  else ret tt.

(** Lines 7-86.  The function has no [return] statement. *)
Definition process_texture_channels (cfg : config) : M pyvalue :=
  ensure_dir (output_folder cfg) ;;;
  names <- listdir (input_folder cfg) ;;
  for_each names (process_entry cfg) ;;;
  ret PyNone.

(** ** Running the script on small worlds *)

Definition solid (v : Z) : plane := Plane 1 1 [v].

Definition wall : image := ImgRGBA (solid 200) (solid 100) (solid 50) (solid 255).

(** A world where every path may be read and written and the standard
    output takes every line. *)
Definition open_env : environment := Environment ∅ ∅ (fun _ => None).

Definition world_of (l : list (path * node)) : world :=
  World (list_to_map l) open_env [].

Definition w_scenario : world :=
  world_of [(["tex"], Dir);
            (["tex"; "wall_rmo.png"], File (Picture wall));
            (["tex"; "floor_diffuse.png"], File (Picture wall))]%string.

Definition cfg_scenario : config :=
  Config ["tex"%string] ["out"%string] (Some ["r"%string]) true.

Definition w_batch : world :=
  world_of [(["tex"], Dir);
            (["tex"; "torn_rmo.png"], File Garbage);
            (["tex"; "wall_rmo.png"], File (Picture wall))]%string.

(** The same folder, on a console that cannot print the name of the
    corrupt file. *)
Definition about (filename : string) (l : log_line) : bool :=
  match l with
  | Saved _ => false
  | Processed f => String.eqb f filename
  | ErrorProcessing f _ => String.eqb f filename
  end.

Definition w_batch_mute : world :=
  World (nodes w_batch)
        (Environment ∅ ∅
           (fun l => if about "torn_rmo.png" l then Some UnicodeEncodeError
                     else None))
        [].

(** A folder with a texture whose image data is cut short: the file
    opens, as an RGB image, and fails when its pixels are first read. *)
Definition w_cut : world :=
  world_of [(["tex"], Dir);
            (["tex"; "cut_rmo.png"], File (Picture (ImgTruncated RGB)))]%string.

Definition rgb_wall : image := ImgRGB (solid 200) (solid 100) (solid 50).

Definition w_rgb : world :=
  world_of [(["tex"], Dir);
            (["tex"; "wall_rmo.png"], File (Picture rgb_wall))]%string.

(** A gray texture of two pixels whose transparency colour is 7. *)
Definition keyed_gray : image := ImgLKey (Plane 2 1 [7; 9]) 7.

Definition w_keyed : world :=
  world_of [(["tex"], Dir); (["out"], Dir);
            (["tex"; "mask_rmo.png"], File (Picture keyed_gray))]%string.

Definition cfg_flat : config :=
  Config ["tex"%string] ["out"%string] None false.

Definition w_empty : world := world_of [].

Definition cfg_in_place : config :=
  Config ["tex"%string] ["tex"%string] (Some ["r"%string]) true.

Definition run (cfg : config) (w : world) :
    result pyvalue * list (path * node) * list log_line :=
  let r := process_texture_channels cfg w in
  (r.1, map_to_list (nodes r.2), log r.2).

(** ** Vocabulary for the properties *)

(** [m] relates every world it starts from to the world it leaves. *)
Definition respects {A} (P : world -> world -> Prop) (m : M A) : Prop :=
  forall w r w', m w = (r, w') -> P w w'.

(** The file-system calls leave the log and the permissions alone. *)
Definition quiet (w w' : world) : Prop :=
  log w' = log w /\ env w' = env w.

(** The environment is as it was. *)
Definition keeps_env (w w' : world) : Prop := env w' = env w.

Definition is_saved (l : log_line) : bool :=
  match l with Saved _ => true | _ => false end.

Definition is_processed (l : log_line) : bool :=
  match l with Processed _ => true | _ => false end.

Definition is_error (l : log_line) : bool :=
  match l with ErrorProcessing _ _ => true | _ => false end.

(** The log only gains [Saved] lines. *)
Definition saves_only (w w' : world) : Prop :=
  exists l, log w' = log w ++ l /\ forallb is_saved l = true.

(** The log has only grown. *)
Definition log_grows (w w' : world) : Prop :=
  exists l, log w' = log w ++ l.

(** The line that closes the processing of [filename]. *)
Definition closes (filename : string) (l : log_line) : Prop :=
  l = Processed filename \/ exists e, l = ErrorProcessing filename e.

(** Numbers of source files the log reports as processed and as failed. *)
Definition count_processed (l : list log_line) : nat :=
  length (List.filter is_processed l).

Definition count_failed (l : list log_line) : nat :=
  length (List.filter is_error l).

(** The eligible names of a listing, each with the result of the body of
    the [try] at the world the directory loop has reached, and the line
    that closes each of them. *)
Fixpoint outcomes (cfg : config) (names : list string) (w : world) :
    list (string * result unit) :=
  match names with
  | [] => []
  | f :: names' =>
      (if eligible f then [(f, (process_file cfg f w).1)] else []) ++
      outcomes cfg names' (process_entry cfg f w).2
  end.

Definition closing_line (o : string * result unit) : log_line :=
  match o.2 with
  | Ok _ => Processed o.1
  | Raise e => ErrorProcessing o.1 e
  end.

Definition completed (o : string * result unit) : bool :=
  match o.2 with Ok _ => true | Raise _ => false end.

Definition failed (o : string * result unit) : bool := negb (completed o).

(** Lines 45-50, 53, 56-63 and 76-77 in one place each: the channels
    the loop indexes, the folder it writes to and the path of an output. *)
Definition channels_of (img : image) : list plane :=
  split (if negb (mode_eqb (image_mode img) RGBA) then convert_RGBA img
         else img).

Definition output_dir_of (cfg : config) (filename : string) : path :=
  if create_subfolders cfg
  then path_join (output_folder cfg) (Str.splitext filename).1
  else output_folder cfg.

Definition output_path_of (cfg : config) (filename suffix : string) : path :=
  path_join (output_dir_of cfg filename)
    ((Str.splitext filename).1 +:+ suffix +:+ ".png")%string.

(** Lines 72-73: the plane that is saved for the channel of letter [x]. *)
Definition saved_plane (cfg : config) (x : string) (ch : plane) : plane :=
  if wants_invert (invert_channels cfg) x then invert ch else ch.

(** The world after a successful [save] and its [print]. *)
Definition with_saved (w : world) (p : path) (ch : plane) : world :=
  World (<[p := File (Picture (ImgL ch))]> (nodes w)) (env w)
        (log w ++ [Saved p]).

(** The four outputs of a file, in the order of [channel_info], for the
    channels [chs] of its RGBA form. *)
Definition outputs_of (cfg : config) (filename : string) (chs : list plane) :
    list (path * plane) :=
  omap (fun sc : string * nat =>
          match String.get 1 sc.1, chs !! sc.2 with
          | Some x, Some ch =>
              Some (output_path_of cfg filename sc.1,
                    saved_plane cfg (String x EmptyString) ch)
          | _, _ => None
          end) channel_info.

Definition save_all (w : world) (outs : list (path * plane)) : world :=
  foldl (fun w pc => with_saved w pc.1 pc.2) w outs.

Definition image_ok (img : image) : Prop :=
  Forall (fun ch => Forall uint8 (pixels ch)) (split img).

Definition suffixes : list string := channel_info.*1.

(** The letters of the four channels, and an invert set cut down to them. *)
Definition channel_letters : list string := ["r"; "g"; "b"; "a"]%string.

Definition restrict_invert (inv : option (list string)) : option (list string) :=
  List.filter (fun x => bool_decide (x ∈ channel_letters)) <$> inv.

Definition with_invert (cfg : config) (inv : option (list string)) : config :=
  Config (input_folder cfg) (output_folder cfg) inv (create_subfolders cfg).

(** [m] never changes the world. *)
Definition reads_only {A} (m : M A) : Prop :=
  forall w r w', m w = (r, w') -> w' = w.

(** Between [w] and [w'] the only change to the store is that missing
    folders on the way to [p] were made. *)
Definition makes_dirs (p : path) (w w' : world) : Prop :=
  forall q, nodes w' !! q = nodes w !! q \/
            (nodes w !! q = None /\ nodes w' !! q = Some Dir /\
             q `prefix_of` p).

(** How the store may change while the script runs: a path keeps its
    node, or a file is rewritten, or a missing path appears, with a
    folder above it and outside the denied paths.  Nothing is removed and
    no node changes its kind. *)
Definition evolves (w w' : world) : Prop :=
  env w' = env w /\
  forall p, nodes w' !! p = nodes w !! p \/
            (exists c c', nodes w !! p = Some (File c) /\
                          nodes w' !! p = Some (File c')) \/
            (nodes w !! p = None /\ is_Some (nodes w' !! p) /\
             lookup_node w' (parent p) = Some Dir /\ p ∉ denied w).

(** A second run, in world [t], follows a first run that went from [s0]
    to [w1] and is now in world [s]: at every path the second run sees
    what the first run sees, or the first run has not touched the path
    yet and the second run sees what the first run left there. *)
Definition follows (s0 w1 s t : world) : Prop :=
  env t = env s /\
  forall p, nodes t !! p = nodes s !! p \/
            (nodes s !! p = nodes s0 !! p /\ nodes t !! p = nodes w1 !! p).

(** The eligible names a run enumerates: the listing is taken once, after
    the destination folder has been ensured. *)
Definition snapshot (cfg : config) (w : world) : list string :=
  match (ensure_dir (output_folder cfg) ;;; listdir (input_folder cfg)) w with
  | (Ok names, _) => List.filter eligible names
  | (Raise _, _) => []
  end.

(** The paths the script writes images to: the outputs of the eligible
    names. *)
Definition is_output (cfg : config) (p : path) : Prop :=
  exists filename suffix,
    eligible filename = true /\ suffix ∈ suffixes /\
    p = output_path_of cfg filename suffix.

(** Between [w] and [w'] a path keeps its node, or a missing path
    became a folder, or an output path now holds a grayscale image. *)
Definition touches_only (cfg : config) (w w' : world) : Prop :=
  forall p, nodes w' !! p = nodes w !! p \/
            (nodes w !! p = None /\ nodes w' !! p = Some Dir) \/
            (is_output cfg p /\
             exists ch, nodes w' !! p = Some (File (Picture (ImgL ch)))).

(** The denied paths are as they were. *)
Definition spares_denied (w w' : world) : Prop :=
  env w' = env w /\
  forall p, p ∈ denied w -> nodes w' !! p = nodes w !! p.

Definition count_saved (l : list log_line) : nat :=
  length (List.filter is_saved l).

(** A world where the destination path is taken by a file, and one where
    a folder is named like a texture. *)
Definition w_blocked : world :=
  world_of [(["tex"], Dir);
            (["tex"; "wall_rmo.png"], File (Picture wall));
            (["out"], File Garbage)]%string.

Definition w_folder_entry : world :=
  world_of [(["tex"], Dir);
            (["tex"; "old_rmo.png"], Dir)]%string.

(** The file name a closing line of the log is about. *)
Definition closed_name (l : log_line) : option string :=
  match l with
  | Saved _ => None
  | Processed filename => Some filename
  | ErrorProcessing filename _ => Some filename
  end.

Definition holds_gray (w : world) (p : path) : Prop :=
  exists ch, nodes w !! p = Some (File (Picture (ImgL ch))).

(** The [Saved] lines written between [w] and [w'] name grayscale
    images of [w'], and the grayscale images of [w] are still grayscale
    images in [w']. *)
Definition log_holds (w w' : world) : Prop :=
  exists l, log w' = log w ++ l /\
            (forall p, Saved p ∈ l -> holds_gray w' p) /\
            (forall p, holds_gray w p -> holds_gray w' p).

(** * Properties *)

(** ** Facts about the string helpers *)

Module StrFacts.
Import Str.

Local Open Scope string_scope.
Local Arguments String.append !_ _ / : simpl nomatch.

Lemma app_nil_r (s : string) : s +:+ "" = s.
Proof. induction s as [|c s IH]; simpl; [reflexivity | now rewrite IH]. Qed.

Lemma app_assoc (a b c : string) : (a +:+ b) +:+ c = a +:+ (b +:+ c).
Proof. induction a as [|x a IH]; simpl; [reflexivity | now rewrite IH]. Qed.

Lemma length_app (a b : string) :
  String.length (a +:+ b) = (String.length a + String.length b)%nat.
Proof. induction a as [|x a IH]; simpl; [reflexivity | now rewrite IH]. Qed.

Lemma take_drop (n : nat) (s : string) : take n s +:+ drop n s = s.
Proof.
  revert s; induction n as [|n IH]; intros [|c s]; simpl; try reflexivity.
  now rewrite IH.
Qed.

Lemma drop_app_length (a b : string) : drop (String.length a) (a +:+ b) = b.
Proof. induction a as [|x a IH]; simpl; [reflexivity | exact IH]. Qed.

Lemma take_app_length (a b : string) : take (String.length a) (a +:+ b) = a.
Proof. induction a as [|x a IH]; simpl; [reflexivity | now rewrite IH]. Qed.

Lemma lower_app (a b : string) : lower (a +:+ b) = lower a +:+ lower b.
Proof. induction a as [|x a IH]; simpl; [reflexivity | now rewrite IH]. Qed.

Lemma startswith_spec (p s : string) :
  startswith p s = true <-> exists post, s = p +:+ post.
Proof.
  revert s; induction p as [|a p IH]; intros s; simpl.
  - split; [intros _; now exists s | reflexivity].
  - destruct s as [|b s].
    + split; [discriminate | intros [post H]; discriminate].
    + rewrite andb_true_iff, IH. split.
      * intros [Hab [post ->]]. apply Ascii.eqb_eq in Hab as ->. now exists post.
      * intros [post H]. injection H as -> ->. split.
        -- apply Ascii.eqb_refl.
        -- now exists post.
Qed.

Lemma contains_unfold (sub s : string) :
  contains sub s =
  startswith sub s ||
  match s with "" => false | String _ s' => contains sub s' end.
Proof. destruct s; reflexivity. Qed.

Lemma contains_spec (sub s : string) :
  contains sub s = true <-> is_substring sub s.
Proof.
  unfold is_substring. split.
  - induction s as [|c s IH]; rewrite contains_unfold, orb_true_iff.
    + intros [H|H]; [|discriminate].
      apply startswith_spec in H as [post ->]. now exists "", post.
    + intros [H|H].
      * apply startswith_spec in H as [post ->]. now exists "", post.
      * destruct (IH H) as (pre & post & ->). now exists (String c pre), post.
  - intros (pre & post & ->). induction pre as [|c pre IH].
    + rewrite contains_unfold. simpl "+:+" at 1.
      replace (startswith sub (sub +:+ post)) with true; [reflexivity|].
      symmetry. apply startswith_spec. now exists post.
    + rewrite contains_unfold. simpl. rewrite IH. apply orb_true_r.
Qed.

Lemma endswith_spec (suf s : string) :
  endswith suf s = true <-> is_suffix suf s.
Proof.
  unfold endswith, is_suffix. rewrite andb_true_iff, Nat.leb_le, String.eqb_eq.
  split.
  - intros [_ H]. exists (take (String.length s - String.length suf) s).
    pose proof (take_drop (String.length s - String.length suf) s) as E.
    rewrite H in E. now symmetry.
  - intros [pre ->]. rewrite length_app. split; [lia|].
    replace (String.length pre + String.length suf - String.length suf)%nat
      with (String.length pre) by lia.
    apply drop_app_length.
Qed.

Lemma endswith_any_spec (sufs : list string) (s : string) :
  endswith_any sufs s = true <-> exists suf, suf ∈ sufs /\ is_suffix suf s.
Proof.
  unfold endswith_any. rewrite existsb_exists. split.
  - intros (suf & Hin & H). exists suf. split.
    + now apply list_elem_of_In.
    + now apply endswith_spec.
  - intros (suf & Hin & H). exists suf. split.
    + now apply list_elem_of_In.
    + now apply endswith_spec.
Qed.

Lemma contains_app_l (sub a b : string) :
  contains sub a = true -> contains sub (a +:+ b) = true.
Proof.
  rewrite !contains_spec. intros (pre & post & ->).
  exists pre, (post +:+ b). now rewrite !app_assoc.
Qed.

Lemma rfind_from_spec (c : ascii) (s : string) (i : Z) :
  (0 <= i)%Z ->
  (lacks c s = true /\ rfind_from c s i = (-1)%Z) \/
  (exists a r, s = a +:+ String c r /\ lacks c r = true /\
               rfind_from c s i = (i + Z.of_nat (String.length a))%Z).
Proof.
  revert i; induction s as [|x s IH]; intros i Hi; simpl.
  - now left.
  - destruct (IH (i + 1)%Z ltac:(lia)) as [[Hl ->] | (a & r & -> & Hr & ->)].
    + simpl. destruct (Ascii.eqb x c) eqn:E.
      * right. apply Ascii.eqb_eq in E as ->. exists "", s. simpl.
        repeat split; [assumption | lia].
      * left. simpl. now rewrite Hl.
    + right. exists (String x a), r. simpl String.length.
      destruct (0 <=? i + 1 + Z.of_nat (String.length a))%Z eqn:E.
      * repeat split; [assumption | lia].
      * apply Z.leb_gt in E. lia.
Qed.

Lemma rfind_cases (c : ascii) (s : string) :
  (lacks c s = true /\ rfind c s = (-1)%Z) \/
  (exists a r, s = a +:+ String c r /\ lacks c r = true /\
               rfind c s = Z.of_nat (String.length a)).
Proof. unfold rfind. apply (rfind_from_spec c s 0). lia. Qed.

Lemma rfind_lower_bound (c : ascii) (s : string) : (-1 <= rfind c s)%Z.
Proof.
  destruct (rfind_cases c s) as [[_ ->] | (a & r & _ & _ & ->)]; lia.
Qed.

(** [splitext] either leaves the name whole or cuts it at its last dot. *)
Lemma splitext_cases (p : string) :
  splitext p = (p, "") \/
  exists b r, p = b +:+ String "." r /\ lacks "." r = true /\
              splitext p = (b, String "." r).
Proof.
  unfold splitext.
  destruct (rfind_cases "." p) as [[_ E] | (a & r & Hp & Hr & E)]; rewrite E.
  - left. pose proof (rfind_lower_bound "/" p).
    replace (rfind "/" p <? -1)%Z with false by (symmetry; apply Z.ltb_ge; lia).
    reflexivity.
  - match goal with |- context [if ?b then _ else _] => destruct b end.
    + right. exists a, r. rewrite Nat2Z.id. repeat split; try assumption.
      rewrite Hp at 1 2. now rewrite take_app_length, drop_app_length.
    + now left.
Qed.

Lemma lower_char_dot (x : ascii) :
  Ascii.eqb (lower_char x) "." = Ascii.eqb x ".".
Proof. destruct x as [[] [] [] [] [] [] [] []]; reflexivity. Qed.

Lemma lacks_dot_lower (s : string) : lacks "." (lower s) = lacks "." s.
Proof.
  induction s as [|x s IH]; simpl; [reflexivity|].
  now rewrite lower_char_dot, IH.
Qed.

Lemma lacks_app_cons (c : ascii) (a r : string) :
  lacks c (a +:+ String c r) = false.
Proof.
  induction a as [|x a IH]; simpl.
  - now rewrite Ascii.eqb_refl.
  - rewrite IH. apply andb_false_r.
Qed.

(** A string has one decomposition around its last dot. *)
Lemma last_dot_unique (a a' r r' : string) :
  a +:+ String "." r = a' +:+ String "." r' ->
  lacks "." r = true -> lacks "." r' = true ->
  a = a' /\ r = r'.
Proof.
  revert a'; induction a as [|x a IH]; intros [|x' a'] H Hr Hr'; simpl in H.
  - now injection H.
  - injection H as <- ->. now rewrite lacks_app_cons in Hr.
  - injection H as -> <-. now rewrite lacks_app_cons in Hr'.
  - injection H as -> H. destruct (IH a' H Hr Hr') as [-> ->]. now split.
Qed.

Lemma startswith_before_dot (p a e : string) :
  lacks "." p = true -> p <> "" ->
  startswith p (a +:+ String "." e) = startswith p a.
Proof.
  revert a; induction p as [|x p IH]; intros a Hp Hne; [congruence|].
  simpl in Hp. apply andb_true_iff in Hp as [Hx Hp].
  destruct a as [|c a]; simpl.
  - apply negb_true_iff in Hx. now rewrite Hx.
  - destruct p as [|y p]; [reflexivity|].
    rewrite (IH a Hp); [reflexivity | discriminate].
Qed.

Lemma contains_around_dot (p a e : string) :
  lacks "." p = true -> p <> "" ->
  contains p (a +:+ String "." e) = contains p a || contains p e.
Proof.
  intros Hp Hne. induction a as [|c a IH].
  - simpl "+:+". rewrite (contains_unfold p (String "." e)).
    pose proof (startswith_before_dot p "" e Hp Hne) as E. simpl "+:+" in E.
    rewrite E. destruct p; [congruence | reflexivity].
  - rewrite (contains_unfold p (String c a +:+ String "." e)).
    rewrite (contains_unfold p (String c a)).
    rewrite (startswith_before_dot p (String c a) e Hp Hne).
    change (String c a +:+ String "." e) with (String c (a +:+ String "." e)).
    cbv iota. rewrite IH. now rewrite orb_assoc.
Qed.

End StrFacts.

(** ** The filter and the output names *)

Section Filter.
Import Str StrFacts.
Local Open Scope string_scope.
Local Arguments String.append !_ _ / : simpl nomatch.

Lemma eligible_iff (filename : string) :
  eligible filename = true <-> spec_eligible filename.
Proof.
  unfold eligible, spec_eligible.
  now rewrite andb_true_iff, contains_spec, endswith_any_spec.
Qed.

Lemma supported_format_shape (ext : string) :
  ext ∈ supported_formats ->
  exists e, ext = String "." e /\ lacks "." e = true /\
            contains "_rmo" e = false.
Proof.
  unfold supported_formats. rewrite !elem_of_cons, elem_of_nil.
  intros H. repeat (destruct H as [-> | H]; [eexists; repeat split|]).
  contradiction.
Qed.

(** The marker of an eligible name sits in the part [splitext] keeps. *)
Lemma base_keeps_marker (filename : string) :
  eligible filename = true ->
  contains "_rmo" (lower (splitext filename).1) = true.
Proof.
  unfold eligible. rewrite andb_true_iff, endswith_any_spec.
  intros [Hm (ext & Hext & pre & Hpre)].
  destruct (splitext_cases filename) as [-> | (b & r & Hn & Hr & ->)];
    [exact Hm|]. simpl.
  destruct (supported_format_shape ext Hext) as (e & -> & He & Hne).
  rewrite Hn, lower_app in Hpre, Hm. simpl in Hpre, Hm.
  change (String (lower_char ".") (lower r)) with (String "." (lower r))
    in Hpre, Hm.
  apply last_dot_unique in Hpre as [_ Hre]; try assumption.
  2: now rewrite lacks_dot_lower.
  rewrite contains_around_dot in Hm by (reflexivity || discriminate).
  rewrite Hre, Hne, orb_false_r in Hm. exact Hm.
Qed.

Lemma output_name_lower (base suffix : string) :
  suffix ∈ channel_info.*1 ->
  lower (base +:+ suffix +:+ ".png") = lower base +:+ suffix +:+ ".png".
Proof.
  unfold channel_info. simpl. rewrite !elem_of_cons, elem_of_nil.
  intros H. rewrite !lower_app.
  repeat (destruct H as [-> | H]; [reflexivity|]). contradiction.
Qed.

End Filter.

(** C10.  The filter is closed under the script's output naming: when a
    file name passes the filter, so does each of the names
    [<basename>_r.png], [<basename>_g.png], [<basename>_b.png] and
    [<basename>_a.png] derived from it; the lowercase form of the derived
    name still contains [_rmo] and ends with [.png]. *)
Theorem C10_output_names_are_eligible (filename suffix : string) :
  eligible filename = true ->
  suffix ∈ channel_info.*1 ->
  let out := ((Str.splitext filename).1 +:+ suffix +:+ ".png")%string in
  Str.contains "_rmo" (Str.lower out) = true /\
  Str.endswith ".png" (Str.lower out) = true /\
  eligible out = true.
Proof.
  intros He Hs out.
  assert (Hc : Str.contains "_rmo" (Str.lower out) = true).
  { unfold out. rewrite output_name_lower by assumption.
    apply StrFacts.contains_app_l. now apply base_keeps_marker. }
  assert (Hp : Str.endswith ".png" (Str.lower out) = true).
  { unfold out. rewrite output_name_lower by assumption.
    apply StrFacts.endswith_spec.
    exists (Str.lower (Str.splitext filename).1 +:+ suffix)%string.
    now rewrite StrFacts.app_assoc. }
  repeat split; try assumption.
  unfold eligible. rewrite Hc. simpl. now rewrite Hp.
Qed.

Lemma C10_output_names_are_eligible_witness :
  eligible "wall_rmo.png" = true /\
  eligible ((Str.splitext "wall_rmo.png").1 +:+ "_a" +:+ ".png")%string = true.
Proof.
  split; [reflexivity|].
  apply (C10_output_names_are_eligible "wall_rmo.png" "_a").
  - reflexivity.
  - simpl. do 3 apply list_elem_of_further. apply list_elem_of_here.
Defined.

(** ** The monad *)

Section Monad.
Context {A B : Type}.

Lemma bind_inv (m : M A) (k : A -> M B) w r w' :
  bind m k w = (r, w') ->
  (exists a w1, m w = (Ok a, w1) /\ k a w1 = (r, w')) \/
  (exists e, m w = (Raise e, w') /\ r = Raise e).
Proof.
  unfold bind. destruct (m w) as [[a|e] w1]; intros H.
  - left. now exists a, w1.
  - right. injection H as <- <-. now exists e.
Qed.

Lemma bind_ok (m : M A) (k : A -> M B) w a w1 :
  m w = (Ok a, w1) -> bind m k w = k a w1.
Proof. unfold bind. now intros ->. Qed.

Lemma bind_raise (m : M A) (k : A -> M B) w e w1 :
  m w = (Raise e, w1) -> bind m k w = (Raise e, w1).
Proof. unfold bind. now intros ->. Qed.

Lemma try_except_inv (m : M A) (h : exn -> M A) w r w' :
  try_except m h w = (r, w') ->
  (exists a, m w = (Ok a, w') /\ r = Ok a) \/
  (exists e w1, m w = (Raise e, w1) /\ h e w1 = (r, w')).
Proof.
  unfold try_except. destruct (m w) as [[a|e] w1]; intros H.
  - left. injection H as <- <-. now exists a.
  - right. now exists e, w1.
Qed.

End Monad.

Section Respects.
Context (P : world -> world -> Prop) `{!Reflexive P} `{!Transitive P}.

Lemma respects_ret {A} (a : A) : respects P (ret a).
Proof. intros w r w' H. injection H as _ <-. reflexivity. Qed.

Lemma respects_raise {A} (e : exn) : respects P (@raise A e).
Proof. intros w r w' H. injection H as _ <-. reflexivity. Qed.

Lemma respects_bind {A B} (m : M A) (k : A -> M B) :
  respects P m -> (forall a, respects P (k a)) -> respects P (bind m k).
Proof.
  intros Hm Hk w r w' H.
  apply bind_inv in H as [(a & w1 & H1 & H2) | (e & H1 & _)].
  - transitivity w1; [eapply Hm | eapply Hk]; eassumption.
  - eapply Hm; eassumption.
Qed.

Lemma respects_try_except {A} (m : M A) (h : exn -> M A) :
  respects P m -> (forall e, respects P (h e)) -> respects P (try_except m h).
Proof.
  intros Hm Hh w r w' H.
  apply try_except_inv in H as [(a & H1 & _) | (e & w1 & H1 & H2)].
  - eapply Hm; eassumption.
  - transitivity w1; [eapply Hm | eapply Hh]; eassumption.
Qed.

Lemma respects_for_each {A} (xs : list A) (body : A -> M unit) :
  (forall x, x ∈ xs -> respects P (body x)) -> respects P (for_each xs body).
Proof.
  induction xs as [|x xs IH]; intros Hb; simpl.
  - apply respects_ret.
  - apply respects_bind.
    + apply Hb. left.
    + intros _. apply IH. intros y Hy. apply Hb. now right.
Qed.

End Respects.

Lemma respects_weaken {A} (P Q : world -> world -> Prop) (m : M A) :
  (forall w w', P w w' -> Q w w') -> respects P m -> respects Q m.
Proof. intros HPQ Hm w r w' H. eapply HPQ, Hm, H. Qed.

Global Instance quiet_refl : Reflexive quiet.
Proof. now intros w. Qed.

Global Instance quiet_trans : Transitive quiet.
Proof. intros a b c [H1 H2] [H3 H4]. split; congruence. Qed.

Global Instance saves_only_refl : Reflexive saves_only.
Proof. intros w. exists []. now rewrite app_nil_r. Qed.

Global Instance saves_only_trans : Transitive saves_only.
Proof.
  intros a b c (l1 & H1 & F1) (l2 & H2 & F2). exists (l1 ++ l2). split.
  - now rewrite H2, H1, app_assoc.
  - now rewrite forallb_app, F1, F2.
Qed.

Lemma quiet_saves_only w w' : quiet w w' -> saves_only w w'.
Proof. intros [H _]. exists []. now rewrite app_nil_r. Qed.

(** ** The file-system calls are quiet *)

Ltac quiet_cases :=
  repeat match goal with
  | |- context [match ?x with _ => _ end] => destruct x
  end.

Lemma quiet_path_exists p : respects quiet (path_exists p).
Proof. intros w r w' H. injection H as _ <-. reflexivity. Qed.

Lemma quiet_set_node p n : respects quiet (set_node p n).
Proof. intros w r w' H. injection H as _ <-. now split. Qed.

Lemma quiet_mkdir p : respects quiet (mkdir p).
Proof.
  intros w r w'. unfold mkdir, raise. quiet_cases; intros H;
    try (injection H as _ <-; reflexivity).
  eapply quiet_set_node, H.
Qed.

Lemma quiet_makedirs_upto n p : respects quiet (makedirs_upto n p).
Proof.
  induction n as [|n IH]; simpl.
  - apply quiet_mkdir.
  - apply respects_bind; try apply _; [|intros _; apply quiet_mkdir].
    destruct (0 <? n)%nat; [|apply respects_ret; apply _].
    apply respects_bind; try apply _; [apply quiet_path_exists|].
    intros [|]; simpl; [apply respects_ret; apply _|].
    apply respects_try_except; try apply _; [exact IH|].
    intros []; (apply respects_ret || apply respects_raise); apply _.
Qed.

Lemma quiet_makedirs p : respects quiet (makedirs p).
Proof. apply quiet_makedirs_upto. Qed.

Lemma quiet_ensure_dir p : respects quiet (ensure_dir p).
Proof.
  apply respects_bind; try apply _; [apply quiet_path_exists|].
  intros [|]; simpl; [apply respects_ret; apply _ | apply quiet_makedirs].
Qed.

Lemma quiet_listdir d : respects quiet (listdir d).
Proof.
  intros w r w'. unfold listdir, raise. quiet_cases; intros H;
    injection H as _ <-; reflexivity.
Qed.

Lemma quiet_Image_open p : respects quiet (Image_open p).
Proof.
  intros w r w'. unfold Image_open, raise. quiet_cases; intros H;
    injection H as _ <-; reflexivity.
Qed.

Lemma quiet_save ch p : respects quiet (save ch p).
Proof.
  intros w r w'. unfold save, raise. quiet_cases; intros H;
    try (injection H as _ <-; reflexivity); eapply quiet_set_node, H.
Qed.

Lemma quiet_letter s : respects quiet (letter s).
Proof.
  unfold letter. destruct (String.get 1 s);
    [apply respects_ret | apply respects_raise]; apply _.
Qed.

(** ** The calls one by one *)

Lemma reads_only_respects {A} P `{!Reflexive P} (m : M A) :
  reads_only m -> respects P m.
Proof. intros Hm w r w' H. apply Hm in H as ->. reflexivity. Qed.

Lemma reads_only_path_exists p : reads_only (path_exists p).
Proof. intros w r w' H. now injection H as _ <-. Qed.

Lemma reads_only_listdir d : reads_only (listdir d).
Proof.
  intros w r w'. unfold listdir, raise. quiet_cases; intros H;
    now injection H as _ <-.
Qed.

Lemma reads_only_Image_open p : reads_only (Image_open p).
Proof.
  intros w r w'. unfold Image_open, raise. quiet_cases; intros H;
    now injection H as _ <-.
Qed.

Lemma reads_only_letter s : reads_only (letter s).
Proof.
  intros w r w'. unfold letter, ret, raise.
  destruct (String.get 1 s); intros H; now injection H as _ <-.
Qed.

Lemma reads_only_convert img : reads_only (Image_convert_RGBA img).
Proof.
  intros w r w'. unfold Image_convert_RGBA, load, bind, ret, raise.
  destruct (is_truncated img); intros H; now injection H as _ <-.
Qed.

Lemma reads_only_split img : reads_only (Image_split img).
Proof.
  intros w r w'. unfold Image_split, load, bind, ret, raise.
  destruct (is_truncated img); intros H; now injection H as _ <-.
Qed.

Lemma reads_only_ret {A} (a : A) : reads_only (ret a).
Proof. intros w r w' H. now injection H as _ <-. Qed.

Lemma world_eta w : World (nodes w) (env w) (log w) = w.
Proof. now destruct w. Qed.

Lemma print_inv l w r w' :
  print l w = (r, w') ->
  (r = Ok tt /\ stdout w l = None /\
   w' = World (nodes w) (env w) (log w ++ [l])) \/
  (exists e, r = Raise e /\ stdout w l = Some e /\ w' = w).
Proof.
  unfold print, raise. destruct (stdout w l) as [e|];
    intros H; injection H as <- <-; [right; eauto | left; auto].
Qed.

Lemma print_ok l w :
  stdout w l = None ->
  print l w = (Ok tt, World (nodes w) (env w) (log w ++ [l])).
Proof. unfold print. now intros ->. Qed.

Lemma print_raises l w e :
  stdout w l = Some e -> print l w = (Raise e, w).
Proof. unfold print. now intros ->. Qed.

Lemma stdout_env w w' l : env w' = env w -> stdout w' l = stdout w l.
Proof. unfold stdout. now intros ->. Qed.

Lemma denied_env w w' : env w' = env w -> denied w' = denied w.
Proof. unfold denied. now intros ->. Qed.

Lemma unreadable_env w w' : env w' = env w -> unreadable w' = unreadable w.
Proof. unfold unreadable. now intros ->. Qed.

Lemma mkdir_inv p w r w' :
  mkdir p w = (r, w') ->
  (r = Ok tt /\
   w' = World (<[p := Dir]> (nodes w)) (env w) (log w) /\
   lookup_node w p = None /\ lookup_node w (parent p) = Some Dir /\
   p ∉ denied w) \/
  (exists e, r = Raise e /\ w' = w).
Proof.
  unfold mkdir, raise, set_node.
  destruct (lookup_node w p) as [n|] eqn:Hp;
    [intros H; injection H as <- <-; right; eauto|].
  destruct (lookup_node w (parent p)) as [[c|]|] eqn:Hq;
    try (intros H; injection H as <- <-; right; eauto).
  destruct (bool_decide (p ∈ denied w)) eqn:Hd;
    intros H; injection H as <- <-; [right; eauto|].
  left. apply bool_decide_eq_false in Hd. now repeat split.
Qed.

Lemma save_inv ch p w r w' :
  save ch p w = (r, w') ->
  (r = Ok tt /\
   w' = World (<[p := File (Picture (ImgL ch))]> (nodes w)) (env w) (log w) /\
   lookup_node w (parent p) = Some Dir /\ lookup_node w p <> Some Dir /\
   p ∉ denied w) \/
  (exists e, r = Raise e /\ w' = w).
Proof.
  unfold save, raise, set_node.
  destruct (lookup_node w (parent p)) as [[c|]|] eqn:Hp;
    try (intros H; injection H as <- <-; right; eauto).
  destruct (lookup_node w p) as [[c|]|] eqn:Hn;
    try (intros H; injection H as <- <-; right; eauto);
    destruct (bool_decide (p ∈ denied w)) eqn:Hd;
    intros H; injection H as <- <-; try (right; now eauto);
    left; apply bool_decide_eq_false in Hd; repeat split; auto; discriminate.
Qed.

Section Makedirs.
Context (P : world -> world -> Prop) `{!Reflexive P} `{!Transitive P}.
Context (p : path) (Hmk : forall k, respects P (mkdir (take k p))).

Lemma respects_makedirs_upto n : respects P (makedirs_upto n p).
Proof.
  induction n as [|n IH]; simpl.
  - apply (Hmk 0).
  - apply respects_bind; try apply _; [|intros _; apply (Hmk (S n))].
    destruct (0 <? n)%nat; [|apply respects_ret; apply _].
    apply respects_bind; try apply _.
    { apply reads_only_respects; [apply _ | apply reads_only_path_exists]. }
    intros [|]; simpl; [apply respects_ret; apply _|].
    apply respects_try_except; try apply _; [exact IH|].
    intros []; (apply respects_ret || apply respects_raise); apply _.
Qed.

Lemma respects_ensure_dir : respects P (ensure_dir p).
Proof.
  apply respects_bind; try apply _.
  { apply reads_only_respects; [apply _ | apply reads_only_path_exists]. }
  intros [|]; simpl; [apply respects_ret; apply _|].
  apply respects_makedirs_upto.
Qed.

End Makedirs.

Lemma lookup_node_cons w x p : lookup_node w (x :: p) = nodes w !! (x :: p).
Proof. reflexivity. Qed.

Lemma lookup_node_None w p :
  lookup_node w p = None -> p <> [] /\ nodes w !! p = None.
Proof. destruct p; [discriminate | now split]. Qed.

Lemma lookup_node_ne w p : p <> [] -> lookup_node w p = nodes w !! p.
Proof. now destruct p. Qed.

(** ** The body of the [try], stage by stage *)

Lemma channels_of_four (img : image) :
  is_truncated img = false ->
  exists r g b a, channels_of img = [r; g; b; a].
Proof. destruct img; try discriminate; simpl; eauto. Qed.

(** Lines 46-50 on an image whose data is whole, and on one whose data
    is cut short. *)
Lemma decode_whole {A} (img : image) (k : list plane -> M A) w :
  is_truncated img = false ->
  (img' <- (if negb (mode_eqb (image_mode img) RGBA)
            then Image_convert_RGBA img else ret img) ;;
   channels <- Image_split img' ;; k channels) w = k (channels_of img) w.
Proof. destruct img; try discriminate; reflexivity. Qed.

Lemma decode_truncated {A} (img : image) (k : list plane -> M A) w :
  is_truncated img = true ->
  (img' <- (if negb (mode_eqb (image_mode img) RGBA)
            then Image_convert_RGBA img else ret img) ;;
   channels <- Image_split img' ;; k channels) w = (Raise OSError, w).
Proof. destruct img; try discriminate. destruct m; reflexivity. Qed.

Lemma process_file_eq cfg filename w :
  process_file cfg filename w =
  match Image_open (path_join (input_folder cfg) filename) w with
  | (Raise e, w0) => (Raise e, w0)
  | (Ok img, w0) =>
      if is_truncated img then (Raise OSError, w0) else
      match (if create_subfolders cfg
             then ensure_dir (output_dir_of cfg filename) w0
             else (Ok tt, w0)) with
      | (Raise e, w1) => (Raise e, w1)
      | (Ok _, w1) =>
          match for_each channel_info
                  (process_channel cfg (channels_of img)
                     (Str.splitext filename).1 (output_dir_of cfg filename))
                  w1 with
          | (Raise e, w2) => (Raise e, w2)
          | (Ok _, w2) => print (Processed filename) w2
          end
      end
  end.
Proof.
  unfold process_file, bind at 1.
  destruct (Image_open _ w) as [[img|e] w0]; [|reflexivity].
  destruct (is_truncated img) eqn:Ht.
  - now rewrite decode_truncated.
  - rewrite decode_whole by exact Ht.
    unfold bind at 1, output_dir_of.
    destruct (create_subfolders cfg).
    + unfold bind at 1.
      destruct (ensure_dir _ w0) as [[[]|e] w1']; [|reflexivity].
      unfold ret at 1. unfold bind at 1. reflexivity.
    + unfold ret at 1. unfold bind at 1. reflexivity.
Qed.

Lemma process_channel_inv cfg channels base dir suffix idx ch x w r w' :
  channels !! idx = Some ch ->
  String.get 1 suffix = Some x ->
  process_channel cfg channels base dir (suffix, idx) w = (r, w') ->
  let p := path_join dir (base +:+ suffix +:+ ".png")%string in
  let c := saved_plane cfg (String x "") ch in
  (r = Ok tt /\ w' = with_saved w p c /\ stdout w (Saved p) = None /\
   lookup_node w (parent p) = Some Dir /\ lookup_node w p <> Some Dir /\
   p ∉ denied w) \/
  (exists e, r = Raise e /\ w' = w) \/
  (exists e, r = Raise e /\ stdout w (Saved p) = Some e /\
     w' = World (<[p := File (Picture (ImgL c))]> (nodes w)) (env w) (log w) /\
     lookup_node w (parent p) = Some Dir /\ lookup_node w p <> Some Dir /\
     p ∉ denied w).
Proof.
  intros Hch Hx. unfold process_channel, letter.
  assert (Hlt : (idx <? length channels)%nat = true).
  { apply Nat.ltb_lt. eapply lookup_lt_Some, Hch. }
  rewrite Hlt, Hch, Hx. intros H. cbn beta zeta in H.
  unfold bind at 1 in H. unfold ret in H. simpl.
  apply bind_inv in H as [([] & w1 & H1 & H2) | (e & H1 & ->)].
  - apply save_inv in H1 as [(_ & -> & ? & ? & ?) | (e & ? & _)];
      [|discriminate].
    apply print_inv in H2 as [(-> & Hs & ->) | (e & -> & Hs & ->)].
    + left. now repeat split.
    + right; right. exists e. now repeat split.
  - apply save_inv in H1 as [(? & _) | (e' & _ & ->)]; [discriminate|].
    right; left. eauto.
Qed.

(** The world after the first [j] files are written and the first [k]
    [Saved] lines printed. *)
Lemma channel_loop cfg filename r g b a w rc w2 :
  for_each channel_info
    (process_channel cfg [r; g; b; a] (Str.splitext filename).1
       (output_dir_of cfg filename)) w = (rc, w2) ->
  let outs := outputs_of cfg filename [r; g; b; a] in
  exists k j,
    match rc with Ok _ => k = 4%nat | Raise _ => (k < 4)%nat end /\
    (j = k \/ j = S k /\
       exists p e, stdout w (Saved p) = Some e /\ rc = Raise e) /\
    env w2 = env w /\
    nodes w2 = nodes (save_all w (take j outs)) /\
    log w2 = log (save_all w (take k outs)).
Proof.
  unfold channel_info. cbn [for_each]. intros H. cbv zeta.
  apply bind_inv in H as [([] & w1 & H1 & H) | (e & H1 & ->)];
    (eapply process_channel_inv in H1; [|reflexivity..]);
    destruct H1 as [(E & -> & _) | [(e1 & E & ->) | (e1 & E & Hs & -> & _)]];
    try discriminate;
    [|exists 0%nat, 0%nat; repeat split; [lia | now left]
     |exists 0%nat, 1%nat; repeat split; [lia|]; right; split; [reflexivity|];
      eexists _, e1; split; [exact Hs | exact E]].
  clear E.
  apply bind_inv in H as [([] & w1 & H1 & H) | (e & H1 & ->)];
    (eapply process_channel_inv in H1; [|reflexivity..]);
    destruct H1 as [(E & -> & _) | [(e1 & E & ->) | (e1 & E & Hs & -> & _)]];
    try discriminate;
    [|exists 1%nat, 1%nat; repeat split; [lia | now left]
     |exists 1%nat, 2%nat; repeat split; [lia|]; right; split; [reflexivity|];
      eexists _, e1; split; [exact Hs | exact E]].
  clear E.
  apply bind_inv in H as [([] & w1 & H1 & H) | (e & H1 & ->)];
    (eapply process_channel_inv in H1; [|reflexivity..]);
    destruct H1 as [(E & -> & _) | [(e1 & E & ->) | (e1 & E & Hs & -> & _)]];
    try discriminate;
    [|exists 2%nat, 2%nat; repeat split; [lia | now left]
     |exists 2%nat, 3%nat; repeat split; [lia|]; right; split; [reflexivity|];
      eexists _, e1; split; [exact Hs | exact E]].
  clear E.
  apply bind_inv in H as [([] & w1 & H1 & H) | (e & H1 & ->)];
    (eapply process_channel_inv in H1; [|reflexivity..]);
    destruct H1 as [(E & -> & _) | [(e1 & E & ->) | (e1 & E & Hs & -> & _)]];
    try discriminate;
    [|exists 3%nat, 3%nat; repeat split; [lia | now left]
     |exists 3%nat, 4%nat; repeat split; [lia|]; right; split; [reflexivity|];
      eexists _, e1; split; [exact Hs | exact E]].
  clear E. injection H as <- <-.
  exists 4%nat, 4%nat. repeat split. now left.
Qed.

(** How far the body of the [try] gets: the image does not open or its
    data is cut short, the subfolder cannot be made, or the channel loop
    runs, writes the first [j] outputs and prints the first [k] [Saved]
    lines; [j] is [k], or [k + 1] when the [print] after a [save]
    raised. *)
Lemma process_file_stages cfg filename w r w' :
  process_file cfg filename w = (r, w') ->
  (exists e, r = Raise e /\ w' = w /\
     (Image_open (path_join (input_folder cfg) filename) w = (Raise e, w) \/
      exists img,
        Image_open (path_join (input_folder cfg) filename) w = (Ok img, w) /\
        is_truncated img = true /\ e = OSError)) \/
  (exists img,
     Image_open (path_join (input_folder cfg) filename) w = (Ok img, w) /\
     is_truncated img = false /\
     ((exists e, r = Raise e /\ create_subfolders cfg = true /\
         ensure_dir (output_dir_of cfg filename) w = (Raise e, w')) \/
      (exists w1 k j,
         (if create_subfolders cfg
          then ensure_dir (output_dir_of cfg filename) w = (Ok tt, w1)
          else w1 = w) /\
         env w' = env w1 /\
         nodes w' =
           nodes (save_all w1
                    (take j (outputs_of cfg filename (channels_of img)))) /\
         log w' =
           log (save_all w1
                  (take k (outputs_of cfg filename (channels_of img)))) ++
           match r with Ok _ => [Processed filename] | Raise _ => [] end /\
         (r = Ok tt /\ k = 4%nat /\ j = 4%nat \/
          (exists e, r = Raise e /\ j = k /\ (k < 4)%nat) \/
          (exists e p, r = Raise e /\ stdout w (Saved p) = Some e /\
                       j = S k /\ (k < 4)%nat) \/
          (exists e, r = Raise e /\
                     stdout w (Processed filename) = Some e /\
                     k = 4%nat /\ j = 4%nat))))).
Proof.
  rewrite process_file_eq. intros H.
  destruct (Image_open _ w) as [[img|e] w0] eqn:Ho.
  2: { injection H as <- <-. pose proof (reads_only_Image_open _ _ _ _ Ho) as ->.
       left. exists e. repeat split. now left. }
  pose proof (reads_only_Image_open _ _ _ _ Ho) as ->.
  destruct (is_truncated img) eqn:Ht.
  { injection H as <- <-. left. exists OSError. repeat split.
    right. now exists img. }
  right. exists img. split; [first [exact Ho | reflexivity]|].
  split; [exact Ht|].
  destruct (channels_of_four img Ht) as (cr & cg & cb & ca & Hc).
  assert (Hloop : forall w1, env w1 = env w ->
    match for_each channel_info
            (process_channel cfg (channels_of img)
               (Str.splitext filename).1 (output_dir_of cfg filename))
            w1 with
    | (Raise e, w2) => (Raise e, w2)
    | (Ok _, w2) => print (Processed filename) w2
    end = (r, w') ->
    exists k j,
      env w' = env w1 /\
      nodes w' =
        nodes (save_all w1
                 (take j (outputs_of cfg filename (channels_of img)))) /\
      log w' =
        log (save_all w1
               (take k (outputs_of cfg filename (channels_of img)))) ++
        match r with Ok _ => [Processed filename] | Raise _ => [] end /\
      (r = Ok tt /\ k = 4%nat /\ j = 4%nat \/
       (exists e, r = Raise e /\ j = k /\ (k < 4)%nat) \/
       (exists e p, r = Raise e /\ stdout w (Saved p) = Some e /\
                    j = S k /\ (k < 4)%nat) \/
       (exists e, r = Raise e /\
                  stdout w (Processed filename) = Some e /\
                  k = 4%nat /\ j = 4%nat))).
  { intros w1 Hw1 H1. rewrite Hc in *.
    destruct (for_each channel_info _ w1) as [[[]|e] w2] eqn:H2;
      apply channel_loop in H2 as (k & j & Hk & Hj & E & N & L).
    - subst k. destruct Hj as [-> | (_ & p & e & _ & ?)]; [|discriminate].
      apply print_inv in H1 as [(-> & Hs & ->) | (e & -> & Hs & ->)].
      + exists 4%nat, 4%nat. cbn [env nodes log].
        repeat split; try assumption; [now rewrite L|]. now left.
      + exists 4%nat, 4%nat.
        repeat split; try assumption; [now rewrite app_nil_r|].
        right; right; right. exists e.
        rewrite <- (stdout_env w w2) by congruence.
        now repeat split.
    - injection H1 as <- <-. exists k, j.
      repeat split; try assumption; [now rewrite app_nil_r|].
      right. destruct Hj as [-> | (-> & p & e' & Hs & He)].
      + left. now exists e.
      + right; left. exists e, p. injection He as <-.
        rewrite <- (stdout_env w w1) by congruence.
        now repeat split. }
  destruct (create_subfolders cfg).
  - destruct (ensure_dir _ w) as [[[]|e] w1] eqn:H1.
    + right. exists w1.
      pose proof (quiet_ensure_dir _ _ _ _ H1) as [_ E1].
      destruct (Hloop w1 E1 H) as (k & j & K).
      exists k, j. split; [reflexivity | exact K].
    + injection H as <- <-. left. now exists e.
  - right. exists w.
    destruct (Hloop w eq_refl H) as (k & j & K).
    exists k, j. split; [reflexivity | exact K].
Qed.

Lemma save_all_snoc w outs p ch :
  save_all w (outs ++ [(p, ch)]) = with_saved (save_all w outs) p ch.
Proof. unfold save_all. now rewrite foldl_app. Qed.

Lemma save_all_log w outs :
  log (save_all w outs) = log w ++ map (fun pc => Saved pc.1) outs.
Proof.
  induction outs as [|[p ch] outs IH] using rev_ind.
  - simpl. now rewrite app_nil_r.
  - rewrite save_all_snoc, map_app. simpl. rewrite IH. now rewrite app_assoc.
Qed.

Lemma save_all_env w outs : env (save_all w outs) = env w.
Proof.
  induction outs as [|[p ch] outs IH] using rev_ind; [reflexivity|].
  now rewrite save_all_snoc.
Qed.

Lemma save_all_lookup w outs p ch :
  NoDup outs.*1 -> (p, ch) ∈ outs ->
  nodes (save_all w outs) !! p = Some (File (Picture (ImgL ch))).
Proof.
  induction outs as [|[q c] outs IH] using rev_ind; intros Hnd Hin.
  - now apply elem_of_nil in Hin.
  - rewrite save_all_snoc. rewrite fmap_app in Hnd. simpl in Hnd.
    apply NoDup_app in Hnd as (Hnd & Hq & _).
    apply elem_of_app in Hin as [Hin | Hin].
    + simpl. rewrite lookup_insert_ne.
      * now apply IH.
      * intros ->. apply (Hq p); [|left].
        apply list_elem_of_fmap. now exists (p, ch).
    + apply list_elem_of_singleton in Hin. injection Hin as -> ->.
      simpl. apply lookup_insert_eq.
Qed.

(** ** Relations every step of a run respects *)

Section RunRespects.
Context (P : world -> world -> Prop) `{!Reflexive P} `{!Transitive P}.
Context (cfg : config).
Context (Hmkdir : forall p, respects P (mkdir p)).
Context (Hwrite : forall ch filename suffix,
           eligible filename = true -> suffix ∈ suffixes ->
           respects P (save ch (output_path_of cfg filename suffix) ;;;
                       print (Saved (output_path_of cfg filename suffix)))).
Context (Hdone : forall filename, respects P (print (Processed filename))).
Context (Hfail : forall filename e,
           respects P (print (ErrorProcessing filename e))).

Lemma run_respects_channel filename chs sc :
  eligible filename = true -> sc ∈ channel_info ->
  respects P (process_channel cfg chs (Str.splitext filename).1
                (output_dir_of cfg filename) sc).
Proof.
  intros He Hsc. destruct sc as [suffix idx]. unfold process_channel.
  destruct (idx <? length chs)%nat; [|apply respects_ret; apply _].
  destruct (chs !! idx); [|apply respects_raise; apply _].
  apply respects_bind; try apply _.
  { apply reads_only_respects; [apply _ | apply reads_only_letter]. }
  intros x. apply (Hwrite _ filename suffix He).
  unfold suffixes. apply list_elem_of_fmap. now exists (suffix, idx).
Qed.

Lemma run_respects_file filename :
  eligible filename = true -> respects P (process_file cfg filename).
Proof.
  intros He w r w' H. rewrite process_file_eq in H.
  destruct (Image_open _ w) as [[img|e] w0] eqn:Ho.
  2: { injection H as _ <-. apply reads_only_Image_open in Ho as ->.
       reflexivity. }
  apply reads_only_Image_open in Ho as ->.
  destruct (is_truncated img); [injection H as _ <-; reflexivity|].
  assert (Hloop : forall w1 r1 w2,
            match for_each channel_info
                    (process_channel cfg (channels_of img)
                       (Str.splitext filename).1 (output_dir_of cfg filename))
                    w1 with
            | (Raise e, w2) => (Raise e, w2)
            | (Ok _, w2) => print (Processed filename) w2
            end = (r1, w2) -> P w1 w2).
  { intros w1 r1 w2 H1.
    destruct (for_each channel_info _ w1) as [[[]|e] w3] eqn:H3.
    - transitivity w3; [|eapply Hdone, H1].
      eapply (respects_for_each P); [|exact H3].
      intros sc Hsc. now apply run_respects_channel.
    - injection H1 as _ <-.
      eapply (respects_for_each P); [|exact H3].
      intros sc Hsc. now apply run_respects_channel. }
  destruct (create_subfolders cfg).
  - destruct (ensure_dir _ w) as [[[]|e] w1] eqn:H1.
    + transitivity w1; [|eapply Hloop, H].
      eapply (respects_ensure_dir P); [|exact H1]. intros k. apply Hmkdir.
    + injection H as _ <-.
      eapply (respects_ensure_dir P); [|exact H1]. intros k. apply Hmkdir.
  - eapply Hloop, H.
Qed.

Lemma run_respects_entry filename : respects P (process_entry cfg filename).
Proof.
  unfold process_entry. destruct (eligible filename) eqn:He;
    [|apply respects_ret; apply _].
  apply respects_try_except; try apply _; [now apply run_respects_file|].
  intros e. apply Hfail.
Qed.

Lemma run_respects_loop names :
  respects P (for_each names (process_entry cfg)).
Proof.
  apply respects_for_each; try apply _.
  intros f _. apply run_respects_entry.
Qed.

Lemma run_respects : respects P (process_texture_channels cfg).
Proof.
  unfold process_texture_channels. apply respects_bind; try apply _.
  { apply respects_ensure_dir; try apply _. intros k. apply Hmkdir. }
  intros _. apply respects_bind; try apply _.
  { apply reads_only_respects; [apply _ | apply reads_only_listdir]. }
  intros names. apply respects_bind; try apply _;
    [|intros _; apply respects_ret; apply _].
  apply run_respects_loop.
Qed.

End RunRespects.

(** The environment of a run never changes. *)
Global Instance keeps_env_refl : Reflexive keeps_env.
Proof. now intros w. Qed.

Global Instance keeps_env_trans : Transitive keeps_env.
Proof. unfold keeps_env. intros a b c H1 H2. congruence. Qed.

Lemma keeps_env_print l : respects keeps_env (print l).
Proof.
  intros w r w' H.
  apply print_inv in H as [(_ & _ & ->) | (e & _ & _ & ->)]; reflexivity.
Qed.

Lemma keeps_env_quiet {A} (m : M A) : respects quiet m -> respects keeps_env m.
Proof. intros Hm w r w' H. now apply Hm in H as [_ E]. Qed.

Lemma keeps_env_mkdir p : respects keeps_env (mkdir p).
Proof. apply keeps_env_quiet, quiet_mkdir. Qed.

Lemma keeps_env_write (ch : plane) (p : path) :
  respects keeps_env (save ch p ;;; print (Saved p)).
Proof.
  apply respects_bind; try apply _;
    [apply keeps_env_quiet, quiet_save | intros _; apply keeps_env_print].
Qed.

Section KeepsEnv.
Context (cfg : config).

Lemma keeps_env_file filename :
  eligible filename = true -> respects keeps_env (process_file cfg filename).
Proof.
  apply (run_respects_file keeps_env cfg keeps_env_mkdir);
    [intros; apply keeps_env_write | intros; apply keeps_env_print].
Qed.

Lemma keeps_env_entry filename : respects keeps_env (process_entry cfg filename).
Proof.
  apply (run_respects_entry keeps_env cfg keeps_env_mkdir);
    intros; (apply keeps_env_write || apply keeps_env_print).
Qed.

Lemma keeps_env_loop names :
  respects keeps_env (for_each names (process_entry cfg)).
Proof.
  apply (run_respects_loop keeps_env cfg keeps_env_mkdir);
    intros; (apply keeps_env_write || apply keeps_env_print).
Qed.

Lemma keeps_env_run : respects keeps_env (process_texture_channels cfg).
Proof.
  apply (run_respects keeps_env cfg keeps_env_mkdir);
    intros; (apply keeps_env_write || apply keeps_env_print).
Qed.

End KeepsEnv.
(** ** What the loops write to the log *)

Lemma saves_only_print_saved p : respects saves_only (print (Saved p)).
Proof.
  intros w r w' H.
  apply print_inv in H as [(_ & _ & ->) | (e & _ & _ & ->)];
    [now exists [Saved p] | reflexivity].
Qed.

Lemma saves_only_process_channel cfg channels base dir sc :
  respects saves_only (process_channel cfg channels base dir sc).
Proof.
  destruct sc as [suffix idx]. unfold process_channel.
  destruct (idx <? length channels)%nat; [|apply respects_ret; apply _].
  destruct (channels !! idx); [|apply respects_raise; apply _].
  apply respects_bind; try apply _.
  { eapply respects_weaken; [apply quiet_saves_only | apply quiet_letter]. }
  intros x. apply respects_bind; try apply _.
  { eapply respects_weaken; [apply quiet_saves_only | apply quiet_save]. }
  intros _. apply saves_only_print_saved.
Qed.

Lemma saves_only_channels cfg channels base dir :
  respects saves_only
    (for_each channel_info (process_channel cfg channels base dir)).
Proof.
  apply respects_for_each; try apply _.
  intros x _. apply saves_only_process_channel.
Qed.

Lemma forallb_saved_map {A} (f : A -> path) (l : list A) :
  forallb is_saved (map (fun x => Saved (f x)) l) = true.
Proof. induction l; simpl; auto. Qed.

(** The body of the [try] writes [Saved] lines and, when it completes,
    one closing [Processed] line. *)
Lemma process_file_log cfg filename w r w' :
  process_file cfg filename w = (r, w') ->
  exists l, forallb is_saved l = true /\
    log w' = log w ++ l ++
             match r with Ok _ => [Processed filename] | Raise _ => [] end.
Proof.
  intros H. apply process_file_stages in H
    as [(e & -> & -> & _) |
        (img & _ & _ & [(e & -> & _ & He) | (w1 & k & j & Hd & _ & _ & L & _)])].
  - exists []. now rewrite !app_nil_r.
  - apply quiet_ensure_dir in He as [E _]. exists [].
    now rewrite E, !app_nil_r.
  - assert (E1 : log w1 = log w).
    { destruct (create_subfolders cfg); [|now subst].
      now apply quiet_ensure_dir in Hd as [E _]. }
    rewrite L, save_all_log, E1, <- app_assoc.
    eexists. split; [|reflexivity].
    apply (forallb_saved_map (fun pc : path * plane => pc.1)).
Qed.

(** One turn of the directory loop: an entry that is not eligible is
    skipped; for an eligible one the body of the [try] runs and, when it
    raises, the handler prints the error line. *)
Lemma process_entry_skip cfg filename w :
  eligible filename = false -> process_entry cfg filename w = (Ok tt, w).
Proof. intros He. unfold process_entry. now rewrite He. Qed.

Lemma process_entry_eligible cfg filename w :
  eligible filename = true ->
  process_entry cfg filename w =
  match process_file cfg filename w with
  | (Ok _, w1) => (Ok tt, w1)
  | (Raise e, w1) => print (ErrorProcessing filename e) w1
  end.
Proof.
  intros He. unfold process_entry, try_except. rewrite He.
  now destruct (process_file cfg filename w) as [[[]|e] w1].
Qed.

Lemma process_entry_log cfg filename w r w' :
  eligible filename = true ->
  process_entry cfg filename w = (r, w') ->
  exists l,
    forallb is_saved l = true /\
    ((exists c, r = Ok tt /\ log w' = log w ++ l ++ [c] /\
                c = closing_line (filename, (process_file cfg filename w).1)) \/
     (exists e e', r = Raise e' /\ log w' = log w ++ l /\
                   (process_file cfg filename w).1 = Raise e /\
                   stdout w (ErrorProcessing filename e) = Some e')).
Proof.
  intros He. rewrite (process_entry_eligible _ _ _ He).
  destruct (process_file cfg filename w) as [[[]|e] w1] eqn:H; intros H1;
    pose proof (process_file_log _ _ _ _ _ H) as (l & F & E);
    pose proof (keeps_env_file cfg filename He _ _ _ H) as Henv;
    exists l; (split; [exact F|]).
  - injection H1 as <- <-. left. exists (Processed filename). now repeat split.
  - rewrite app_nil_r in E.
    apply print_inv in H1 as [(-> & Hs & ->) | (e' & -> & Hs & ->)].
    + left. exists (ErrorProcessing filename e). cbn [log].
      repeat split. now rewrite E, app_assoc.
    + right. exists e, e'. rewrite <- (stdout_env w w1) by exact Henv.
      now repeat split.
Qed.

Lemma closing_line_closes f r : closes f (closing_line (f, r)).
Proof. destruct r as [[]|e]; [now left | right; now exists e]. Qed.

Lemma filter_saved_nil (f : log_line -> bool) l :
  forallb is_saved l = true -> (forall p, f (Saved p) = false) ->
  List.filter f l = [].
Proof.
  intros F Hf. induction l as [|x l IH]; [reflexivity|]. simpl in F.
  apply andb_true_iff in F as [Fx F]. destruct x; try discriminate.
  simpl. rewrite Hf. now apply IH.
Qed.

Lemma closes_counts filename c l :
  forallb is_saved l = true -> closes filename c ->
  (count_processed (l ++ [c]) + count_failed (l ++ [c]) = 1)%nat.
Proof.
  intros F Hc. unfold count_processed, count_failed.
  rewrite !List.filter_app, !length_app.
  rewrite !(filter_saved_nil _ l F) by reflexivity.
  destruct Hc as [-> | [e ->]]; reflexivity.
Qed.

(** The standard output accepts the same lines all along the loop. *)
Lemma stdout_entry cfg f w r w' l :
  process_entry cfg f w = (r, w') -> stdout w' l = stdout w l.
Proof. intros H. apply stdout_env. eapply keeps_env_entry, H. Qed.

(** The directory loop raises only when the [print] of a handler does. *)
Lemma directory_loop_raises cfg names w e w' :
  for_each names (process_entry cfg) w = (Raise e, w') ->
  exists f e0, f ∈ names /\ eligible f = true /\
               stdout w (ErrorProcessing f e0) = Some e.
Proof.
  revert w; induction names as [|f names IH]; intros w H; [discriminate|].
  cbn [for_each] in H.
  apply bind_inv in H as [([] & w1 & H1 & H) | (e' & H1 & He)].
  - apply IH in H as (g & e0 & Hg & Hge & Hs).
    exists g, e0. rewrite (stdout_entry _ _ _ _ _ _ H1) in Hs.
    repeat split; [now right | assumption..].
  - injection He as <-.
    destruct (eligible f) eqn:Hf;
      [|now rewrite process_entry_skip in H1 by exact Hf].
    apply process_entry_log in H1 as (l & _ & [(c & ? & _) | (e0 & e1 & E & _ & _ & Hs)]);
      [discriminate | | exact Hf].
    injection E as <-. exists f, e0. repeat split; [now left | assumption..].
Qed.

(** What the loop has logged when it runs to its end: between the
    [Saved] lines, the closing lines of the eligible entries, in the
    order of the listing. *)
Lemma directory_loop_log cfg names w w' :
  for_each names (process_entry cfg) w = (Ok tt, w') ->
  exists l,
    log w' = log w ++ l /\
    List.filter (fun x => negb (is_saved x)) l =
      map closing_line (outcomes cfg names w) /\
    (forall f, f ∈ names -> eligible f = true ->
               exists c, c ∈ l /\ closes f c).
Proof.
  revert w; induction names as [|f names IH]; intros w H.
  - injection H as <-. exists []. rewrite app_nil_r. repeat split.
    intros f Hf. now apply elem_of_nil in Hf.
  - cbn [for_each] in H.
    apply bind_inv in H as [([] & w1 & H1 & H) | (e' & _ & ?)]; [|discriminate].
    apply IH in H as (l & E & Hl & Hall). cbn [outcomes].
    rewrite H1. cbn [snd]. destruct (eligible f) eqn:Hf.
    + apply process_entry_log in H1
        as (l1 & F & [(c & _ & E1 & Hc) | (e0 & e1 & ? & _)]);
        [| discriminate | exact Hf].
      exists ((l1 ++ [c]) ++ l). split; [|split].
      * rewrite E, E1. now rewrite <- !app_assoc.
      * rewrite !List.filter_app, (filter_saved_nil _ l1 F) by reflexivity.
        rewrite Hl, Hc. simpl.
        now destruct ((process_file cfg f w).1) as [[]|].
      * intros g Hg Hge. apply elem_of_cons in Hg as [-> | Hg].
        -- exists c. split; [set_solver|]. rewrite Hc. apply closing_line_closes.
        -- destruct (Hall g Hg Hge) as (c' & Hin & Hc').
           exists c'. split; [set_solver | exact Hc'].
    + rewrite process_entry_skip in H1 by exact Hf. injection H1 as <-.
      exists l. repeat split; try assumption.
      intros g Hg Hge. apply elem_of_cons in Hg as [-> | Hg]; [congruence|].
      now apply Hall.
Qed.

Lemma outcomes_names cfg names w :
  (outcomes cfg names w).*1 = List.filter eligible names.
Proof.
  revert w; induction names as [|f names IH]; intros w; [reflexivity|].
  cbn [outcomes List.filter]. rewrite fmap_app, IH.
  now destruct (eligible f).
Qed.

Lemma closing_counts (os : list (string * result unit)) :
  count_processed (map closing_line os) = length (List.filter completed os) /\
  count_failed (map closing_line os) = length (List.filter failed os).
Proof.
  unfold count_processed, count_failed.
  induction os as [|[f [[]|e]] os [IH1 IH2]]; [now split|..]; simpl;
    rewrite ?IH1, ?IH2; now split.
Qed.

Lemma count_skips_saved (f : log_line -> bool) l :
  (forall p, f (Saved p) = false) ->
  List.filter f (List.filter (fun x => negb (is_saved x)) l) = List.filter f l.
Proof.
  intros Hf. induction l as [|x l IH]; [reflexivity|].
  destruct x; simpl; rewrite ?Hf, ?IH; reflexivity.
Qed.

Lemma completed_or_failed (os : list (string * result unit)) :
  (length (List.filter completed os) + length (List.filter failed os) =
   length os)%nat.
Proof.
  induction os as [|[f [[]|e]] os IH]; [reflexivity|..];
    unfold failed in *; simpl in *; lia.
Qed.

(** When the standard output takes every error line, the loop runs to
    its end whatever happens inside a file. *)
Lemma directory_loop cfg names w :
  (forall f e, stdout w (ErrorProcessing f e) = None) ->
  exists wend, for_each names (process_entry cfg) w = (Ok tt, wend).
Proof.
  intros Hs.
  destruct (for_each names (process_entry cfg) w) as [[[]|e] wend] eqn:H;
    [now exists wend|].
  apply directory_loop_raises in H as (f & e0 & _ & _ & H).
  now rewrite Hs in H.
Qed.

(** ** The value handed back to the caller *)

Lemma process_texture_channels_inv cfg w r w' :
  process_texture_channels cfg w = (r, w') ->
  (exists e, r = Raise e /\ log w' = log w /\
     (ensure_dir (output_folder cfg) w = (Raise e, w') \/
      exists w0, ensure_dir (output_folder cfg) w = (Ok tt, w0) /\
                 listdir (input_folder cfg) w0 = (Raise e, w'))) \/
  (exists w0 names rl,
     ensure_dir (output_folder cfg) w = (Ok tt, w0) /\
     listdir (input_folder cfg) w0 = (Ok names, w0) /\
     for_each names (process_entry cfg) w0 = (rl, w') /\
     r = match rl with Ok _ => Ok PyNone | Raise e => Raise e end).
Proof.
  unfold process_texture_channels. intros H.
  apply bind_inv in H as [([] & w0 & H0 & H) | (e & H0 & ->)].
  2: { left. exists e. pose proof (quiet_ensure_dir _ _ _ _ H0) as [E _].
       repeat split; [exact E | now left]. }
  pose proof (quiet_ensure_dir _ _ _ _ H0) as [E0 _].
  apply bind_inv in H as [(names & w1 & H1 & H) | (e & H1 & ->)].
  2: { left. exists e. pose proof (quiet_listdir _ _ _ _ H1) as [E _].
       repeat split; [congruence | right; now exists w0]. }
  pose proof (reads_only_listdir _ _ _ _ H1) as ->.
  right. exists w0, names.
  destruct (for_each names (process_entry cfg) w0) as [rl wend] eqn:H2.
  exists rl. unfold bind in H. rewrite H2 in H.
  destruct rl as [[]|e]; injection H as <- <-; now repeat split.
Qed.

Lemma process_texture_channels_ok cfg w r w' :
  process_texture_channels cfg w = (Ok r, w') ->
  r = PyNone /\
  exists w0 names,
    ensure_dir (output_folder cfg) w = (Ok tt, w0) /\
    listdir (input_folder cfg) w0 = (Ok names, w0) /\
    for_each names (process_entry cfg) w0 = (Ok tt, w').
Proof.
  intros H. apply process_texture_channels_inv in H
    as [(e & ? & _) | (w0 & names & [[]|e] & H0 & H1 & H2 & Hr)];
    try discriminate.
  injection Hr as ->. split; [reflexivity|]. now exists w0, names.
Qed.

(** C3.  A directory entry is processed exactly when its lowercase name
    contains [_rmo] and ends with one of the supported extensions: the
    turn of the loop for an eligible entry runs the body of the [try]
    and closes the log with a line for that entry (it ends normally
    unless the standard output refuses the error line, and then with the
    exception of that [print]); the turn for any other entry leaves the
    world (files and log) as it was; the mixed-case name [Metal_RMO.TGA]
    is eligible. *)
Theorem C3_eligibility_filter (cfg : config) (filename : string) (w : world) :
  (eligible filename = true <-> spec_eligible filename) /\
  (exists r w' l,
     process_entry cfg filename w = (r, w') /\
     log w' = log w ++ l /\
     if eligible filename
     then (r = Ok tt /\ exists c, last l = Some c /\ closes filename c) \/
          (exists e e',
             r = Raise e' /\
             (process_file cfg filename w).1 = Raise e /\
             stdout w (ErrorProcessing filename e) = Some e')
     else r = Ok tt /\ w' = w /\ l = []) /\
  eligible "Metal_RMO.TGA" = true.
Proof.
  split; [apply eligible_iff|]. split; [|reflexivity].
  destruct (eligible filename) eqn:He.
  - destruct (process_entry cfg filename w) as [r w'] eqn:H.
    apply process_entry_log in H
      as (l & _ & [(c & -> & E & Hc) | (e & e' & -> & E & Hf & Hs)]);
      [| | exact He].
    + exists (Ok tt), w', (l ++ [c]). repeat split; try assumption.
      left. split; [reflexivity|]. exists c. split; [apply last_snoc|].
      rewrite Hc. apply closing_line_closes.
    + exists (Raise e'), w', l. repeat split; try assumption.
      right. now exists e, e'.
  - exists (Ok tt), w, []. rewrite app_nil_r.
    repeat split. now apply process_entry_skip.
Qed.



(** C2, as amended.  A call that completes hands back [None], not a
    pair of counts; the counts can be read off the log.  Apart from the
    [Saved] lines, the log gains exactly one line per eligible entry of
    the directory listing, in the order of the listing: the [Processed]
    line when the body of the [try] completed for that entry, the error
    line with its exception when it raised.  So the number of
    [Processed] lines is the number of source files fully processed and
    the number of error lines the number of source files that failed. *)
Theorem C2_returns_none_counts_in_log (cfg : config) (w w' : world)
    (r : pyvalue) :
  process_texture_channels cfg w = (Ok r, w') ->
  r = PyNone /\
  exists w0 names l,
    ensure_dir (output_folder cfg) w = (Ok tt, w0) /\
    listdir (input_folder cfg) w0 = (Ok names, w0) /\
    log w' = log w ++ l /\
    (outcomes cfg names w0).*1 = List.filter eligible names /\
    List.filter (fun x => negb (is_saved x)) l =
      map closing_line (outcomes cfg names w0) /\
    count_processed l = length (List.filter completed (outcomes cfg names w0)) /\
    count_failed l = length (List.filter failed (outcomes cfg names w0)) /\
    (count_processed l + count_failed l =
     length (List.filter eligible names))%nat.
Proof.
  intros H.
  apply process_texture_channels_ok in H as (-> & w0 & names & H0 & H1 & H2).
  split; [reflexivity|].
  destruct (directory_loop_log _ _ _ _ H2) as (l & E & Hl & _).
  pose proof (quiet_ensure_dir _ _ _ _ H0) as [E0 _].
  destruct (closing_counts (outcomes cfg names w0)) as [Hp Hf].
  assert (Cp : count_processed l =
               length (List.filter completed (outcomes cfg names w0))).
  { rewrite <- Hp, <- Hl. unfold count_processed.
    now rewrite count_skips_saved. }
  assert (Cf : count_failed l =
               length (List.filter failed (outcomes cfg names w0))).
  { rewrite <- Hf, <- Hl. unfold count_failed.
    now rewrite count_skips_saved. }
  exists w0, names, l. repeat split; try assumption.
  - congruence.
  - apply outcomes_names.
  - rewrite Cp, Cf, completed_or_failed.
    now rewrite <- (outcomes_names cfg names w0), length_fmap.
Qed.

Lemma C2_returns_none_counts_in_log_witness :
  PyNone = PyNone /\
  exists w0 names l,
    ensure_dir (output_folder cfg_scenario) w_batch = (Ok tt, w0) /\
    listdir (input_folder cfg_scenario) w0 = (Ok names, w0) /\
    log (process_texture_channels cfg_scenario w_batch).2 = log w_batch ++ l /\
    (outcomes cfg_scenario names w0).*1 = List.filter eligible names /\
    List.filter (fun x => negb (is_saved x)) l =
      map closing_line (outcomes cfg_scenario names w0) /\
    count_processed l =
      length (List.filter completed (outcomes cfg_scenario names w0)) /\
    count_failed l =
      length (List.filter failed (outcomes cfg_scenario names w0)) /\
    (count_processed l + count_failed l =
     length (List.filter eligible names))%nat.
Proof.
  apply (C2_returns_none_counts_in_log cfg_scenario w_batch
           (process_texture_channels cfg_scenario w_batch).2 PyNone).
  vm_compute. reflexivity.
Defined.

(** C2, as stated, fails: on a folder with one good and one corrupt
    texture the call hands back [None], which is not the pair [(1, 1)]. *)
Lemma C2_counterexample :
  (process_texture_channels cfg_scenario w_batch).1 = Ok PyNone /\
  (process_texture_channels cfg_scenario w_batch).1 <> Ok (PyTuple 1 1) /\
  count_processed (log (process_texture_channels cfg_scenario w_batch).2) = 1%nat /\
  count_failed (log (process_texture_channels cfg_scenario w_batch).2) = 1%nat.
Proof. vm_compute. repeat split. discriminate. Qed.
(** ** One source file *)

Lemma output_path_inj cfg filename s1 s2 :
  output_path_of cfg filename s1 = output_path_of cfg filename s2 ->
  (s1 +:+ ".png")%string = (s2 +:+ ".png")%string.
Proof.
  unfold output_path_of, path_join. intros H.
  apply app_inv_head in H. injection H as H.
  now apply (inj (String.append _)) in H.
Qed.

Lemma outputs_NoDup cfg filename chs : NoDup (outputs_of cfg filename chs).*1.
Proof.
  destruct chs as [|r [|g [|b [|a chs]]]]; cbn;
    repeat (apply NoDup_cons; split;
            [rewrite ?elem_of_cons, elem_of_nil;
             intros H; repeat destruct H as [H|H]; try exact H;
             apply output_path_inj in H; discriminate|]);
    apply NoDup_nil; exact I.
Qed.

Lemma rsub255_uint8 v : uint8 (rsub255 v).
Proof. unfold uint8, rsub255. pose proof (Z.mod_pos_bound (255 - v) 256). lia. Qed.

Lemma rsub255_exact v : uint8 v -> rsub255 v = 255 - v.
Proof. unfold uint8, rsub255. intros H. apply Z.mod_small. lia. Qed.

Lemma keyed_alpha_rgb_uint8 key r g b :
  Forall uint8 (keyed_alpha_rgb key r g b).
Proof.
  revert g b; induction r as [|x r IH]; intros [|y g] [|z b]; simpl;
    try apply Forall_nil_2.
  apply Forall_cons. split; [|apply IH].
  unfold uint8. destruct (_ && _); lia.
Qed.

Lemma channels_of_ok img :
  image_ok img -> Forall (fun ch => Forall uint8 (pixels ch)) (channels_of img).
Proof.
  unfold image_ok, channels_of.
  destruct img; simpl; rewrite ?Forall_cons; intros H; repeat split;
    try tauto; try apply Forall_nil_2; simpl.
  - apply Forall_forall; intros v Hv.
    apply list_elem_of_In, repeat_spec in Hv; subst; unfold uint8; lia.
  - apply Forall_forall; intros v Hv.
    apply list_elem_of_In, repeat_spec in Hv; subst; unfold uint8; lia.
  - apply Forall_forall; intros v Hv.
    apply list_elem_of_fmap in Hv as (u & -> & _).
    unfold keyed_alpha, uint8. destruct (u =? key); lia.
  - apply keyed_alpha_rgb_uint8.
  - destruct m; apply Forall_nil_2.
Qed.

Lemma saved_plane_ok cfg x ch :
  Forall uint8 (pixels ch) -> Forall uint8 (pixels (saved_plane cfg x ch)).
Proof.
  unfold saved_plane. destruct (wants_invert _ _); [|trivial].
  intros _. simpl. apply Forall_forall. intros v Hv.
  apply list_elem_of_fmap in Hv as (u & -> & _). apply rsub255_uint8.
Qed.

Lemma outputs_of_ok cfg filename chs p ch :
  Forall (fun ch => Forall uint8 (pixels ch)) chs ->
  (p, ch) ∈ outputs_of cfg filename chs -> Forall uint8 (pixels ch).
Proof.
  intros Hok Hin. unfold outputs_of in Hin.
  apply list_elem_of_omap in Hin as ([sfx idx] & _ & H). simpl in H.
  destruct (String.get 1 sfx); [|discriminate].
  destruct (chs !! idx) as [c|] eqn:Hc; [|discriminate].
  injection H as _ <-. apply saved_plane_ok.
  eapply Forall_lookup_1 in Hok; eassumption.
Qed.

Lemma outputs_of_paths cfg filename img :
  is_truncated img = false ->
  (outputs_of cfg filename (channels_of img)).*1 =
  map (output_path_of cfg filename) suffixes.
Proof.
  intros Ht. destruct (channels_of_four img Ht) as (r & g & b & a & ->).
  reflexivity.
Qed.

(** C7.  What the body of the [try] writes for a source file: the
    outputs come in the order [_r], [_g], [_b], [_a], each is named
    [<basename><suffix>.png] and lies directly in the destination folder,
    or in its subfolder [<basename>] when subfolders are asked for, and
    each is a single-channel image of mode [L] whose pixels are 8-bit
    values when those of the source are.  A run that completes writes all
    four and closes with the [Processed] line; one that fails has written
    the first [k] of them. *)
Theorem C7_output_layout (cfg : config) (filename : string) (w w' : world)
    (r : result unit) :
  process_file cfg filename w = (r, w') ->
  let base := (Str.splitext filename).1 in
  let dir := if create_subfolders cfg then output_folder cfg ++ [base]
             else output_folder cfg in
  let paths := map (fun sfx => dir ++ [(base +:+ sfx +:+ ".png")%string])
                   ["_r"; "_g"; "_b"; "_a"]%string in
  exists k,
    (r = Ok tt -> k = 4%nat) /\
    log w' = log w ++ map Saved (take k paths) ++
             match r with Ok _ => [Processed filename] | Raise _ => [] end /\
    forall p, p ∈ take k paths ->
      exists ch,
        nodes w' !! p = Some (File (Picture (ImgL ch))) /\
        forall img,
          Image_open (input_folder cfg ++ [filename]) w = (Ok img, w) ->
          image_ok img -> Forall uint8 (pixels ch).
Proof.
  intros H base dir paths.
  assert (Hpaths : paths = map (output_path_of cfg filename) suffixes).
  { unfold paths, dir, base, suffixes, output_path_of, output_dir_of, path_join.
    now destruct (create_subfolders cfg). }
  apply process_file_stages in H
    as [(e & -> & -> & _) |
        (img & Hopen & Ht &
         [(e & -> & _ & He) | (w1 & k & j & Hd & _ & N & L & Hk)])].
  - exists 0%nat. repeat split; [discriminate | now rewrite !app_nil_r|].
    intros p Hp. now apply elem_of_nil in Hp.
  - exists 0%nat. apply quiet_ensure_dir in He as [E _].
    repeat split; [discriminate | now rewrite E, !app_nil_r|].
    intros p Hp. now apply elem_of_nil in Hp.
  - assert (E1 : log w1 = log w).
    { destruct (create_subfolders cfg); [|now subst].
      now apply quiet_ensure_dir in Hd as [E _]. }
    set (outs := outputs_of cfg filename (channels_of img)) in *.
    assert (Hkj : (k <= j)%nat /\ (r = Ok tt -> k = 4%nat)).
    { destruct Hk as [(-> & -> & ->) |
                      [(e & -> & -> & _) |
                       [(e & l & -> & _ & -> & _) | (e & -> & _ & -> & ->)]]];
        split; (lia || discriminate || reflexivity). }
    destruct Hkj as [Hkj Hr].
    assert (Hfst : forall n, (take n outs).*1 = take n paths).
    { intros n. unfold outs.
      now rewrite fmap_take, outputs_of_paths, Hpaths by exact Ht. }
    exists k. split; [exact Hr|]. split.
    + rewrite L, save_all_log, E1, <- Hfst, <- app_assoc. do 2 f_equal.
      now rewrite <- list_fmap_compose.
    + intros p Hp.
      assert (Hp' : p ∈ take j paths).
      { rewrite <- (Nat.min_l k j), <- take_take in Hp by exact Hkj.
        eapply subseteq_take, Hp. }
      rewrite <- Hfst in Hp'.
      apply list_elem_of_fmap in Hp' as ([q ch] & -> & Hin). exists ch. split.
      * rewrite N. apply save_all_lookup; [|exact Hin]. rewrite Hfst, Hpaths.
        eapply sublist_NoDup; [|apply sublist_take].
        rewrite <- (outputs_of_paths cfg filename img Ht). apply outputs_NoDup.
      * intros img' Hopen' Hok. unfold path_join in Hopen.
        rewrite Hopen in Hopen'. injection Hopen' as <-.
        eapply outputs_of_ok; [apply channels_of_ok, Hok|].
        eapply subseteq_take, Hin.
Qed.

Lemma C7_output_layout_witness :
  let w' := (process_file cfg_scenario "wall_rmo.png" w_scenario).2 in
  let paths := map (fun sfx => ["out"; "wall_rmo"] ++ [("wall_rmo" +:+ sfx +:+ ".png")%string])
                   ["_r"; "_g"; "_b"; "_a"]%string in
  exists k,
    (Ok tt = Ok tt -> k = 4%nat) /\
    log w' = log w_scenario ++ map Saved (take k paths) ++ [Processed "wall_rmo.png"] /\
    forall p, p ∈ take k paths ->
      exists ch,
        nodes w' !! p = Some (File (Picture (ImgL ch))) /\
        forall img,
          Image_open (["tex"] ++ ["wall_rmo.png"]) w_scenario = (Ok img, w_scenario) ->
          image_ok img -> Forall uint8 (pixels ch).
Proof.
  apply (C7_output_layout cfg_scenario "wall_rmo.png" w_scenario
           (process_file cfg_scenario "wall_rmo.png" w_scenario).2 (Ok tt)).
  vm_compute. reflexivity.
Defined.

(** ** The outputs of a file that was processed to the end *)

Lemma process_file_ok_inv cfg filename w w' :
  process_file cfg filename w = (Ok tt, w') ->
  exists img w1,
    Image_open (path_join (input_folder cfg) filename) w = (Ok img, w) /\
    is_truncated img = false /\
    (if create_subfolders cfg
     then ensure_dir (output_dir_of cfg filename) w = (Ok tt, w1)
     else w1 = w) /\
    env w' = env w1 /\
    nodes w' = nodes (save_all w1 (outputs_of cfg filename (channels_of img))) /\
    log w' = log (save_all w1 (outputs_of cfg filename (channels_of img))) ++
             [Processed filename].
Proof.
  intros H.
  apply process_file_stages in H
    as [(e & ? & _) |
        (img & Hopen & Ht &
         [(e & ? & _) | (w1 & k & j & Hd & E & N & L & Hk)])];
    try discriminate.
  destruct Hk as [(_ & -> & ->) |
                  [(e & ? & _) | [(e & l & ? & _) | (e & ? & _)]]];
    try discriminate.
  assert (Hlen : (length (outputs_of cfg filename (channels_of img)) <= 4)%nat).
  { destruct (channels_of_four img Ht) as (r & g & b & a & ->). simpl. lia. }
  rewrite take_ge in N, L by exact Hlen.
  exists img, w1. now repeat split.
Qed.

Lemma saved_output cfg filename w w' img suffix idx x ch :
  process_file cfg filename w = (Ok tt, w') ->
  Image_open (path_join (input_folder cfg) filename) w = (Ok img, w) ->
  (suffix, idx) ∈ channel_info ->
  String.get 1 suffix = Some x ->
  channels_of img !! idx = Some ch ->
  nodes w' !! output_path_of cfg filename suffix
  = Some (File (Picture (ImgL (saved_plane cfg (String x "") ch)))).
Proof.
  intros H Hopen Hsc Hx Hch.
  apply process_file_ok_inv in H as (img' & w1 & Hopen' & _ & _ & _ & -> & _).
  rewrite Hopen in Hopen'. injection Hopen' as <-.
  apply save_all_lookup; [apply outputs_NoDup|].
  unfold outputs_of. apply list_elem_of_omap.
  exists (suffix, idx). split; [exact Hsc|]. simpl. now rewrite Hx, Hch.
Qed.

Lemma every_output_saved cfg filename w w' suffix :
  process_file cfg filename w = (Ok tt, w') -> suffix ∈ suffixes ->
  exists ch, nodes w' !! output_path_of cfg filename suffix
             = Some (File (Picture (ImgL ch))).
Proof.
  intros H Hs.
  apply process_file_ok_inv in H as (img & w1 & _ & Ht & _ & _ & -> & _).
  assert (Hin : output_path_of cfg filename suffix
                ∈ (outputs_of cfg filename (channels_of img)).*1).
  { rewrite outputs_of_paths by exact Ht.
    apply list_elem_of_fmap. now exists suffix. }
  apply list_elem_of_fmap in Hin as ([p ch] & Hp & Hin). simpl in Hp. subst p.
  exists ch. apply save_all_lookup; [apply outputs_NoDup | exact Hin].
Qed.

(** ** Inversion *)

Lemma wants_invert_spec inv x :
  wants_invert inv x = bool_decide (x ∈ default [] inv).
Proof.
  destruct inv as [[|y l]|]; simpl; try reflexivity;
    symmetry; apply bool_decide_eq_false; apply not_elem_of_nil.
Qed.

(** C4.  When a source file is processed to the end, the image saved for
    the channel with suffix [_x] has the size of that channel of the
    source (in its RGBA form) and, pixel for pixel, the value [255 - v]
    when the letter [x] is in the invert set and the value [v] itself
    when it is not, an absent or empty invert set included. *)
Theorem C4_inversion_law (cfg : config) (filename : string) (w w' : world)
    (img : image) (suffix : string) (idx : nat) (x : ascii) (ch : plane) :
  process_file cfg filename w = (Ok tt, w') ->
  Image_open (path_join (input_folder cfg) filename) w = (Ok img, w) ->
  (suffix, idx) ∈ channel_info ->
  String.get 1 suffix = Some x ->
  channels_of img !! idx = Some ch ->
  Forall uint8 (pixels ch) ->
  exists out,
    nodes w' !! output_path_of cfg filename suffix
      = Some (File (Picture (ImgL out))) /\
    width out = width ch /\ height out = height ch /\
    pixels out =
      if bool_decide (String x "" ∈ default [] (invert_channels cfg))
      then map (fun v => 255 - v) (pixels ch)
      else pixels ch.
Proof.
  intros H Hopen Hsc Hx Hch Hok.
  exists (saved_plane cfg (String x "") ch). split.
  - eapply saved_output; eassumption.
  - unfold saved_plane. rewrite wants_invert_spec.
    destruct (bool_decide _); simpl; repeat split.
    apply Forall_fmap_ext_1. eapply Forall_impl; [exact Hok|].
    intros v Hv. now apply rsub255_exact.
Qed.

Lemma C4_inversion_law_witness :
  exists out,
    nodes (process_file cfg_scenario "wall_rmo.png" w_scenario).2
      !! output_path_of cfg_scenario "wall_rmo.png" "_r"
      = Some (File (Picture (ImgL out))) /\
    width out = width (solid 200) /\ height out = height (solid 200) /\
    pixels out =
      if bool_decide ("r"%string ∈ default [] (invert_channels cfg_scenario))
      then map (fun v => 255 - v) (pixels (solid 200))
      else pixels (solid 200).
Proof.
  apply (C4_inversion_law cfg_scenario "wall_rmo.png" w_scenario
           (process_file cfg_scenario "wall_rmo.png" w_scenario).2
           wall "_r" 0 "r" (solid 200)).
  - vm_compute. reflexivity.
  - vm_compute. reflexivity.
  - apply list_elem_of_here.
  - reflexivity.
  - reflexivity.
  - repeat constructor; unfold uint8; lia.
Defined.

(** ** Entries of the invert set that name no channel *)

Lemma bind_ext {A B} (m : M A) (k k' : A -> M B) w :
  (forall a w1, k a w1 = k' a w1) -> bind m k w = bind m k' w.
Proof. intros H. unfold bind. destruct (m w) as [[a|e] w1]; [apply H | reflexivity]. Qed.

Lemma for_each_ext {A} (xs : list A) (f g : A -> M unit) w :
  (forall x w1, x ∈ xs -> f x w1 = g x w1) ->
  for_each xs f w = for_each xs g w.
Proof.
  revert w; induction xs as [|x xs IH]; intros w H; [reflexivity|].
  cbn [for_each]. unfold bind. rewrite (H x w) by left.
  destruct (g x w) as [[[]|e] w1]; [|reflexivity].
  apply IH. intros y w2 Hy. apply H. now right.
Qed.

Lemma wants_invert_restrict inv x :
  x ∈ channel_letters ->
  wants_invert (restrict_invert inv) x = wants_invert inv x.
Proof.
  intros Hx. rewrite !wants_invert_spec. apply bool_decide_ext.
  destruct inv as [l|]; simpl; [|reflexivity].
  rewrite !list_elem_of_In, filter_In, bool_decide_eq_true. tauto.
Qed.

Lemma process_channel_restrict cfg chs base dir sc w :
  sc ∈ channel_info ->
  process_channel (with_invert cfg (restrict_invert (invert_channels cfg)))
    chs base dir sc w
  = process_channel cfg chs base dir sc w.
Proof.
  unfold channel_info. rewrite !elem_of_cons, elem_of_nil. intros H.
  repeat destruct H as [-> | H]; try contradiction;
    unfold process_channel;
    (destruct (_ <? _)%nat; [|reflexivity]);
    (destruct (chs !! _); [|reflexivity]);
    unfold letter; cbn [String.get]; unfold bind at 1 3, ret;
    cbn [invert_channels with_invert];
    (rewrite wants_invert_restrict; [reflexivity|]);
    unfold channel_letters; set_solver.
Qed.

Lemma process_file_restrict cfg filename w :
  process_file (with_invert cfg (restrict_invert (invert_channels cfg)))
    filename w
  = process_file cfg filename w.
Proof.
  unfold process_file. cbn [input_folder output_folder create_subfolders with_invert].
  apply bind_ext. intros img w1. apply bind_ext. intros img' w2.
  apply bind_ext. intros channels w3. apply bind_ext. intros dir w4.
  unfold bind. rewrite for_each_ext with (g := process_channel cfg
    channels (Str.splitext filename).1 dir).
  - reflexivity.
  - intros sc w5 Hsc. now apply process_channel_restrict.
Qed.

(** C9.  Entries of the invert set outside [r], [g], [b], [a] change
    nothing: the run with an invert set and the run with that set cut
    down to the four channel letters end in the same way (no error is
    raised by the extra entries) and leave the same files and the same
    log. *)
Theorem C9_foreign_invert_entries_ignored (cfg : config) (w : world) :
  process_texture_channels
    (with_invert cfg (restrict_invert (invert_channels cfg))) w
  = process_texture_channels cfg w.
Proof.
  unfold process_texture_channels.
  cbn [input_folder output_folder with_invert].
  apply bind_ext. intros _ w1. apply bind_ext. intros names w2.
  unfold bind. rewrite for_each_ext with (g := process_entry cfg).
  - reflexivity.
  - intros f w3 _. unfold process_entry, try_except.
    destruct (eligible f); [|reflexivity].
    now rewrite process_file_restrict.
Qed.

Example restrict_invert_ex :
  restrict_invert (Some ["x"; "r"; "red"; "A"; "b"]%string)
  = Some ["r"; "b"]%string.
Proof. reflexivity. Qed.

(** ** An RGB source *)

(** C1 fails on the code: a source decoded with three channels (RGB, no
    alpha) is converted to RGBA before it is split, so the guard on the
    channel index never skips anything; four planes are written, the
    last one the alpha-suffixed file, filled with 255. *)
Theorem C1_rgb_source_gets_alpha_output :
  let res := process_texture_channels cfg_flat w_rgb in
  channel_count rgb_wall = 3%nat /\
  res.1 = Ok PyNone /\
  log res.2 = [Saved ["out"; "wall_rmo_r.png"]; Saved ["out"; "wall_rmo_g.png"];
               Saved ["out"; "wall_rmo_b.png"]; Saved ["out"; "wall_rmo_a.png"];
               Processed "wall_rmo.png"]%string /\
  nodes res.2 !! ["out"; "wall_rmo_a.png"]%string
    = Some (File (Picture (ImgL (solid 255)))).
Proof. vm_compute. repeat split. Qed.

(** Whatever the mode of the source, the loop indexes four channels. *)
Lemma four_channels_always (img : image) :
  is_truncated img = false -> length (channels_of img) = 4%nat.
Proof.
  intros Ht. destruct (channels_of_four img Ht) as (r & g & b & a & ->).
  reflexivity.
Qed.
(** ** Folders made on the way to a path *)

Global Instance makes_dirs_refl p : Reflexive (makes_dirs p).
Proof. intros w q. now left. Qed.

Global Instance makes_dirs_trans p : Transitive (makes_dirs p).
Proof.
  intros a b c H1 H2 q.
  destruct (H2 q) as [E2 | (N2 & D2 & Hq)].
  - rewrite E2. apply H1.
  - destruct (H1 q) as [E1 | (N1 & D1 & _)]; [|congruence].
    right. rewrite <- E1. now repeat split.
Qed.

Lemma makes_dirs_mkdir p k : respects (makes_dirs p) (mkdir (take k p)).
Proof.
  intros w r w' H.
  apply mkdir_inv in H as [(_ & -> & Hn & _) | (e & _ & ->)]; [|reflexivity].
  apply lookup_node_None in Hn as [_ Hn]. intros q. simpl.
  destruct (decide (take k p = q)) as [<- | Hne].
  - right. rewrite lookup_insert_eq. repeat split; [exact Hn|].
    apply prefix_take.
  - left. now rewrite lookup_insert_ne.
Qed.

Lemma makes_dirs_ensure_dir p : respects (makes_dirs p) (ensure_dir p).
Proof. apply respects_ensure_dir; try apply _. apply makes_dirs_mkdir. Qed.

(** ** A missing source folder *)

(** C8, as stated, fails: with the source folder missing and the
    destination set to the same path (as the script's own entry point
    does), the destination is created first, the listing is empty and the
    run completes normally. *)
Lemma C8_counterexample :
  lookup_node w_empty (input_folder cfg_in_place) = None /\
  (process_texture_channels cfg_in_place w_empty).1 = Ok PyNone /\
  log (process_texture_channels cfg_in_place w_empty).2 = [].
Proof. vm_compute. repeat split. Qed.

(** C8, as amended.  When the source folder does not exist and is
    neither the destination folder nor a folder above it, the call
    raises to its caller before any file is processed: nothing is
    logged, so the per-file error path is not involved, and no file is
    created or changed. *)
Theorem C8_missing_source_is_fatal (cfg : config) (w : world) :
  lookup_node w (input_folder cfg) = None ->
  ~ input_folder cfg `prefix_of` output_folder cfg ->
  exists e w',
    process_texture_channels cfg w = (Raise e, w') /\
    log w' = log w /\
    forall p c, nodes w' !! p = Some (File c) -> nodes w !! p = Some (File c).
Proof.
  intros Hin Hpre.
  destruct (process_texture_channels cfg w) as [r w'] eqn:H.
  assert (Hfiles : forall w0, makes_dirs (output_folder cfg) w w0 ->
            forall p c, nodes w0 !! p = Some (File c) ->
                        nodes w !! p = Some (File c)).
  { intros w0 Hm p c Hp. destruct (Hm p) as [E | (_ & D & _)]; congruence. }
  apply process_texture_channels_inv in H
    as [(e & -> & Hlog & Hwhere) | (w0 & names & _ & H0 & H1 & _)].
  - exists e, w'. split; [reflexivity|]. split; [exact Hlog|].
    destruct Hwhere as [H0 | (w0 & H0 & H1)].
    + apply Hfiles. eapply makes_dirs_ensure_dir, H0.
    + pose proof (reads_only_listdir _ _ _ _ H1) as ->.
      apply Hfiles. eapply makes_dirs_ensure_dir, H0.
  - exfalso. apply makes_dirs_ensure_dir in H0.
    apply lookup_node_None in Hin as [Hne Hin].
    unfold listdir, raise in H1. rewrite lookup_node_ne in H1 by assumption.
    destruct (H0 (input_folder cfg)) as [E | (_ & _ & Hp)]; [|tauto].
    rewrite E, Hin in H1. discriminate.
Qed.

Lemma C8_missing_source_is_fatal_witness :
  exists e w',
    process_texture_channels cfg_flat w_empty = (Raise e, w') /\
    log w' = log w_empty /\
    forall p c, nodes w' !! p = Some (File c) ->
                nodes w_empty !! p = Some (File c).
Proof.
  apply (C8_missing_source_is_fatal cfg_flat w_empty).
  - reflexivity.
  - simpl. intros [k Hk]. discriminate.
Defined.

(** ** Evolution of the store *)

Lemma evolves_dir w w' q :
  evolves w w' -> lookup_node w q = Some Dir -> lookup_node w' q = Some Dir.
Proof.
  intros [_ H] Hq. destruct q as [|x q]; [reflexivity|].
  rewrite lookup_node_cons in *.
  destruct (H (x :: q)) as [E | [(c & c' & E & _) | (E & _)]]; congruence.
Qed.

Lemma evolves_file w w' q c :
  evolves w w' -> lookup_node w q = Some (File c) ->
  exists c', lookup_node w' q = Some (File c').
Proof.
  intros [_ H] Hq. destruct q as [|x q]; [discriminate|].
  rewrite lookup_node_cons in *.
  destruct (H (x :: q)) as [E | [(c1 & c' & _ & E) | (E & _)]].
  - exists c. congruence.
  - now exists c'.
  - congruence.
Qed.

Lemma evolves_is_Some w w' q :
  evolves w w' -> is_Some (lookup_node w q) -> is_Some (lookup_node w' q).
Proof.
  intros He [[c|] Hq].
  - destruct (evolves_file _ _ _ _ He Hq) as [c' ->]. eauto.
  - rewrite (evolves_dir _ _ _ He Hq). eauto.
Qed.

Global Instance evolves_refl : Reflexive evolves.
Proof. intros w. split; [reflexivity|]. intros p. now left. Qed.

Global Instance evolves_trans : Transitive evolves.
Proof.
  intros a b c Hab Hbc. pose proof Hab as [Dab Nab]. pose proof Hbc as [Dbc Nbc].
  split; [congruence|]. intros p.
  destruct (Nbc p) as [E2 | [(c2 & c2' & F2 & F2') | (N2 & S2 & P2 & D2)]].
  - rewrite E2. destruct (Nab p) as [E1 | [R1 | (N1 & S1 & P1 & D1)]];
      [now left | now (right; left)|].
    right; right. split; [exact N1|]. split; [exact S1|].
    split; [|exact D1]. eapply evolves_dir; eassumption.
  - destruct (Nab p) as [E1 | [(c1 & c1' & F1 & F1') | (N1 & S1 & P1 & D1)]].
    + right; left. exists c2, c2'. split; congruence.
    + right; left. exists c1, c2'. now split.
    + rewrite F2 in S1. right; right. split; [exact N1|].
      split; [rewrite F2'; eauto|]. split; [|exact D1].
      eapply evolves_dir; eassumption.
  - destruct (Nab p) as [E1 | [(c1 & c1' & F1 & F1') | (N1 & S1 & P1 & D1)]].
    + right; right. rewrite <- E1, <- (denied_env a b Dab). now repeat split.
    + congruence.
    + rewrite N2 in S1. now destruct S1.
Qed.

Lemma evolves_log_only w l :
  evolves w (World (nodes w) (env w) l).
Proof. split; [reflexivity|]. intros p. now left. Qed.

Lemma evolves_print l : respects evolves (print l).
Proof.
  intros w r w' H.
  apply print_inv in H as [(_ & _ & ->) | (e & _ & _ & ->)];
    [apply evolves_log_only | reflexivity].
Qed.

Lemma lookup_node_insert_parent w p n l q :
  lookup_node w q = Some Dir ->
  q <> p ->
  lookup_node (World (<[p := n]> (nodes w)) (env w) l) q = Some Dir.
Proof.
  intros Hq Hne. destruct q as [|x q]; [reflexivity|].
  rewrite lookup_node_cons in *. simpl. now rewrite lookup_insert_ne.
Qed.

Lemma parent_ne (p : path) : p <> [] -> parent p <> p.
Proof.
  intros Hp E. apply (f_equal length) in E. unfold parent in E.
  rewrite length_take in E. destruct p; [congruence | simpl in E; lia].
Qed.

Lemma evolves_mkdir p : respects evolves (mkdir p).
Proof.
  intros w r w' H.
  apply mkdir_inv in H as [(_ & -> & Hn & Hpar & Hd) | (e & _ & ->)];
    [|reflexivity].
  apply lookup_node_None in Hn as [Hne Hn].
  split; [reflexivity|]. intros q. simpl.
  destruct (decide (p = q)) as [<- | Hq].
  - right; right. rewrite lookup_insert_eq. repeat split; eauto.
    apply lookup_node_insert_parent; auto. now apply parent_ne.
  - left. now rewrite lookup_insert_ne.
Qed.

Lemma evolves_save ch p : respects evolves (save ch p).
Proof.
  intros w r w' H.
  apply save_inv in H as [(_ & -> & Hpar & Hnd & Hd) | (e & _ & ->)];
    [|reflexivity].
  split; [reflexivity|]. intros q. simpl.
  destruct (decide (p = q)) as [<- | Hq]; [|left; now rewrite lookup_insert_ne].
  rewrite lookup_insert_eq.
  destruct p as [|x p]; [now destruct Hnd|]. rewrite lookup_node_cons in Hnd.
  destruct (nodes w !! (x :: p)) as [[c|]|] eqn:E.
  - right; left. eauto.
  - now destruct Hnd.
  - right; right. repeat split; eauto.
    apply lookup_node_insert_parent; auto. now apply parent_ne.
Qed.

Lemma evolves_ensure_dir p : respects evolves (ensure_dir p).
Proof. apply respects_ensure_dir; try apply _. intros k. apply evolves_mkdir. Qed.

Lemma evolves_process_channel cfg channels base dir sc :
  respects evolves (process_channel cfg channels base dir sc).
Proof.
  destruct sc as [suffix idx]. unfold process_channel.
  destruct (idx <? length channels)%nat; [|apply respects_ret; apply _].
  destruct (channels !! idx); [|apply respects_raise; apply _].
  apply respects_bind; try apply _.
  { apply reads_only_respects; [apply _ | apply reads_only_letter]. }
  intros x. apply respects_bind; try apply _; [apply evolves_save|].
  intros _. apply evolves_print.
Qed.

Lemma evolves_process_file cfg filename :
  respects evolves (process_file cfg filename).
Proof.
  unfold process_file. apply respects_bind; try apply _.
  { apply reads_only_respects; [apply _ | apply reads_only_Image_open]. }
  intros img. apply respects_bind; try apply _.
  { apply reads_only_respects; [apply _|].
    destruct (negb _); [apply reads_only_convert | apply reads_only_ret]. }
  intros img'. apply respects_bind; try apply _.
  { apply reads_only_respects; [apply _ | apply reads_only_split]. }
  intros channels. apply respects_bind; try apply _.
  { destruct (create_subfolders cfg); [|apply respects_ret; apply _].
    apply respects_bind; try apply _; [apply evolves_ensure_dir|].
    intros _. apply respects_ret; apply _. }
  intros dir. apply respects_bind; try apply _; [|intros _; apply evolves_print].
  apply respects_for_each; try apply _.
  intros sc _. apply evolves_process_channel.
Qed.

Lemma evolves_process_entry cfg filename :
  respects evolves (process_entry cfg filename).
Proof.
  unfold process_entry. destruct (eligible filename);
    [|apply respects_ret; apply _].
  apply respects_try_except; try apply _; [apply evolves_process_file|].
  intros e. apply evolves_print.
Qed.

Lemma evolves_directory_loop cfg names :
  respects evolves (for_each names (process_entry cfg)).
Proof.
  apply respects_for_each; try apply _.
  intros f _. apply evolves_process_entry.
Qed.

(** ** A second run over the same inputs *)

Lemma parent_snoc (d : path) (b : string) : parent (d ++ [b]) = d.
Proof.
  unfold parent. rewrite length_app. simpl.
  replace (length d + 1 - 1)%nat with (length d) by lia.
  now rewrite take_app_length.
Qed.

Lemma mkdir_ok p w :
  lookup_node w p = None -> lookup_node w (parent p) = Some Dir ->
  p ∉ denied w ->
  mkdir p w = (Ok tt, World (<[p := Dir]> (nodes w)) (env w) (log w)).
Proof.
  intros Hp Hq Hd. unfold mkdir. rewrite Hp, Hq.
  now rewrite bool_decide_eq_false_2 by assumption.
Qed.

Lemma save_ok ch p w :
  lookup_node w (parent p) = Some Dir -> lookup_node w p <> Some Dir ->
  p ∉ denied w ->
  save ch p w
  = (Ok tt, World (<[p := File (Picture (ImgL ch))]> (nodes w)) (env w)
                  (log w)).
Proof.
  intros Hq Hp Hd. unfold save, set_node. rewrite Hq.
  rewrite bool_decide_eq_false_2 by assumption.
  destruct (lookup_node w p) as [[c|]|]; congruence.
Qed.

(** With its parent in place, [ensure_dir] makes at most one folder. *)
Lemma ensure_dir_child d b w :
  is_Some (lookup_node w d) ->
  ensure_dir (d ++ [b]) w =
  if bool_decide (is_Some (lookup_node w (d ++ [b]))) then (Ok tt, w)
  else mkdir (d ++ [b]) w.
Proof.
  intros Hd. unfold ensure_dir, bind at 1, path_exists.
  destruct (bool_decide (is_Some (lookup_node w (d ++ [b])))); [reflexivity|].
  cbn [negb]. unfold makedirs. rewrite length_app, Nat.add_1_r.
  cbn [makedirs_upto length].
  rewrite take_app_length.
  rewrite (take_ge (d ++ [b])) by (rewrite length_app; simpl; lia).
  destruct (0 <? length d)%nat; [|reflexivity].
  unfold bind at 1 2, path_exists.
  now rewrite bool_decide_eq_true_2 by assumption.
Qed.

Section Follows.
Context (s0 w1 s t : world).
Context (Hf : follows s0 w1 s t) (He : evolves s w1).

Lemma follows_dir q :
  lookup_node s q = Some Dir -> lookup_node t q = Some Dir.
Proof.
  destruct q as [|x q]; [reflexivity|]. rewrite !lookup_node_cons. intros Hq.
  destruct Hf as [_ H]. destruct (H (x :: q)) as [E | [_ E]]; [congruence|].
  rewrite E. apply (evolves_dir s w1 (x :: q) He Hq).
Qed.

Lemma follows_file q c :
  lookup_node s q = Some (File c) -> exists c', lookup_node t q = Some (File c').
Proof.
  destruct q as [|x q]; [discriminate|]. rewrite !lookup_node_cons. intros Hq.
  destruct Hf as [_ H]. destruct (H (x :: q)) as [E | [_ E]]; [rewrite E; eauto|].
  rewrite E. apply (evolves_file s w1 (x :: q) c He Hq).
Qed.

Lemma follows_is_Some q :
  is_Some (lookup_node s q) -> is_Some (lookup_node t q).
Proof.
  intros [[c|] Hq].
  - destruct (follows_file q c Hq) as [c' ->]. eauto.
  - rewrite (follows_dir q Hq). eauto.
Qed.

Lemma follows_not_dir q :
  is_Some (lookup_node s q) -> lookup_node s q <> Some Dir ->
  lookup_node t q <> Some Dir.
Proof.
  intros [[c|] Hq] Hn; [|congruence].
  destruct (follows_file q c Hq) as [c' ->]. discriminate.
Qed.

(** A path the first run does not have yet is missing in the second
    run too, unless the first run creates it later. *)
Lemma follows_none q :
  lookup_node s q = None ->
  lookup_node t q = None \/
  (lookup_node t q = lookup_node w1 q /\ is_Some (lookup_node w1 q) /\
   lookup_node w1 (parent q) = Some Dir /\ q ∉ denied s).
Proof.
  intros Hq. apply lookup_node_None in Hq as [Hne Hq].
  rewrite !lookup_node_ne by assumption.
  destruct Hf as [_ H]. destruct (H q) as [E | [_ E]]; [left; congruence|].
  destruct He as [_ H']. destruct (H' q) as [E' | [(c & c' & F & _) | (_ & S1 & P1 & D1)]].
  - left. congruence.
  - congruence.
  - right. rewrite E. now repeat split.
Qed.

Lemma follows_denied q : q ∈ denied t <-> q ∈ denied s.
Proof. unfold denied. destruct Hf as [-> _]. reflexivity. Qed.

End Follows.

Lemma follows_insert s0 w1 s t p n l l' :
  follows s0 w1 s t ->
  follows s0 w1 (World (<[p := n]> (nodes s)) (env s) l)
                (World (<[p := n]> (nodes t)) (env t) l').
Proof.
  intros [Hd H]. split; [exact Hd|]. intros q. simpl.
  destruct (decide (p = q)) as [<- | Hq].
  - left. now rewrite !lookup_insert_eq.
  - rewrite !lookup_insert_ne by assumption. apply H.
Qed.

Lemma follows_insert_left s0 w1 s t p n l :
  nodes t !! p = Some n ->
  follows s0 w1 s t ->
  follows s0 w1 (World (<[p := n]> (nodes s)) (env s) l) t.
Proof.
  intros Hp [Hd H]. split; [exact Hd|]. intros q. simpl.
  destruct (decide (p = q)) as [<- | Hq].
  - left. now rewrite lookup_insert_eq.
  - rewrite lookup_insert_ne by assumption. apply H.
Qed.

Lemma follows_log s0 w1 s t l l' :
  follows s0 w1 s t ->
  follows s0 w1 (World (nodes s) (env s) l) (World (nodes t) (env t) l').
Proof. intros [Hd H]. now split. Qed.

Section Simulation.
Context (s0 w1 : world).

(** Saving in the second run does what it did in the first. *)
Lemma sim_save ch p s t r s' :
  follows s0 w1 s t -> evolves s' w1 ->
  is_Some (lookup_node s (parent p)) ->
  save ch p s = (r, s') ->
  exists t', save ch p t = (r, t') /\ follows s0 w1 s' t'.
Proof.
  intros Hf He' Hpar H.
  assert (He : evolves s w1).
  { transitivity s'; [eapply evolves_save, H | exact He']. }
  assert (Hden : denied t = denied s) by (apply denied_env, Hf).
  unfold save, raise, set_node in H |- *. rewrite Hden.
  destruct Hpar as [[c|] Hq]; rewrite Hq in H.
  { destruct (follows_file _ _ _ _ Hf He _ _ Hq) as [c' ->].
    injection H as <- <-. now exists t. }
  rewrite (follows_dir _ _ _ _ Hf He _ Hq).
  destruct (lookup_node s p) as [[c|]|] eqn:Es.
  - destruct (follows_file _ _ _ _ Hf He _ _ Es) as [c' ->].
    destruct (bool_decide (p ∈ denied s)); injection H as <- <-;
      [now exists t|].
    eexists. split; [reflexivity|]. now apply follows_insert.
  - rewrite (follows_dir _ _ _ _ Hf He _ Es).
    injection H as <- <-. now exists t.
  - destruct (follows_none _ _ _ _ Hf He p Es) as [-> | (Et & _ & _ & Hd)].
    + destruct (bool_decide (p ∈ denied s)); injection H as <- <-;
        [now exists t|].
      eexists. split; [reflexivity|]. now apply follows_insert.
    + rewrite bool_decide_eq_false_2 in H |- * by exact Hd.
      injection H as <- <-.
      assert (Hs' : lookup_node
                (World (<[p := File (Picture (ImgL ch))]> (nodes s))
                       (env s) (log s)) p
              = Some (File (Picture (ImgL ch)))).
      { apply lookup_node_None in Es as [Hne _].
        rewrite lookup_node_ne by exact Hne. simpl. apply lookup_insert_eq. }
      destruct (evolves_file _ _ _ _ He' Hs') as [c' Hc'].
      rewrite Et, Hc'.
      eexists. split; [reflexivity|]. now apply follows_insert.
Qed.

(** So does making the subfolder of a file. *)
Lemma sim_ensure_child d b s t r s' :
  follows s0 w1 s t -> evolves s' w1 ->
  is_Some (lookup_node s d) ->
  ensure_dir (d ++ [b]) s = (r, s') ->
  exists t', ensure_dir (d ++ [b]) t = (r, t') /\ follows s0 w1 s' t'.
Proof.
  intros Hf He' Hd H.
  assert (He : evolves s w1).
  { transitivity s'; [eapply evolves_ensure_dir, H | exact He']. }
  assert (Hden : denied t = denied s) by (apply denied_env, Hf).
  rewrite ensure_dir_child in H by assumption.
  rewrite ensure_dir_child by (eapply follows_is_Some; eauto).
  destruct (lookup_node s (d ++ [b])) as [n|] eqn:Es.
  { rewrite bool_decide_eq_true_2 in H by eauto. injection H as <- <-.
    rewrite bool_decide_eq_true_2 by (eapply follows_is_Some; eauto).
    now exists t. }
  rewrite bool_decide_eq_false_2 in H by (intros [? ?]; congruence).
  unfold mkdir, raise, set_node in H. rewrite Es, parent_snoc in H.
  destruct Hd as [[c|] Hq]; rewrite Hq in H.
  - injection H as <- <-.
    destruct (follows_file _ _ _ _ Hf He _ _ Hq) as [c' Hq'].
    destruct (follows_none _ _ _ _ Hf He _ Es) as [Et | (_ & _ & Hpw & _)].
    + rewrite bool_decide_eq_false_2 by (intros [? ?]; congruence).
      unfold mkdir, raise. rewrite Et, parent_snoc, Hq'. now exists t.
    + rewrite parent_snoc in Hpw.
      destruct (evolves_file _ _ _ _ He Hq) as [c1 Hc1]. congruence.
  - pose proof (follows_dir _ _ _ _ Hf He _ Hq) as Hq'.
    destruct (bool_decide (d ++ [b] ∈ denied s)) eqn:Hb.
    + injection H as <- <-. apply bool_decide_eq_true in Hb.
      destruct (follows_none _ _ _ _ Hf He _ Es) as [Et | (_ & _ & _ & Hd)];
        [|contradiction].
      rewrite bool_decide_eq_false_2 by (intros [? ?]; congruence).
      unfold mkdir, raise. rewrite Et, parent_snoc, Hq', Hden.
      rewrite bool_decide_eq_true_2 by exact Hb. now exists t.
    + injection H as <- <-. apply bool_decide_eq_false in Hb.
      assert (Hs' : lookup_node
                (World (<[d ++ [b] := Dir]> (nodes s)) (env s) (log s))
                (d ++ [b]) = Some Dir).
      { rewrite lookup_node_ne by (now destruct d). simpl.
        apply lookup_insert_eq. }
      pose proof (evolves_dir _ _ _ He' Hs') as Hw1.
      destruct (follows_none _ _ _ _ Hf He _ Es) as [Et | (Et & _)].
      * rewrite bool_decide_eq_false_2 by (intros [? ?]; congruence).
        unfold mkdir, set_node. rewrite Et, parent_snoc, Hq', Hden.
        rewrite bool_decide_eq_false_2 by exact Hb.
        eexists. split; [reflexivity|]. now apply follows_insert.
      * rewrite Hw1 in Et. rewrite bool_decide_eq_true_2 by (rewrite Et; eauto).
        exists t. split; [reflexivity|].
        apply follows_insert_left; [|exact Hf].
        now rewrite lookup_node_ne in Et by (now destruct d).
Qed.

(** And [print], which sees the same standard output. *)
Lemma sim_print l s t r s' :
  follows s0 w1 s t ->
  print l s = (r, s') ->
  exists t', print l t = (r, t') /\ follows s0 w1 s' t'.
Proof.
  intros Hf H. pose proof Hf as [Henv _].
  apply print_inv in H as [(-> & Hs & ->) | (e & -> & Hs & ->)].
  - rewrite print_ok by (now rewrite (stdout_env s t)).
    eexists. split; [reflexivity|]. now apply follows_log.
  - rewrite (print_raises l t e) by (now rewrite (stdout_env s t)).
    now exists t.
Qed.

End Simulation.

Lemma ensure_dir_ok_exists p w w' :
  ensure_dir p w = (Ok tt, w') -> is_Some (lookup_node w' p).
Proof.
  unfold ensure_dir, bind at 1, path_exists.
  destruct (bool_decide (is_Some (lookup_node w p))) eqn:E; cbn [negb].
  - intros H. injection H as <-. now apply bool_decide_eq_true in E.
  - unfold makedirs. destruct (length p) as [|n] eqn:Hn; cbn [makedirs_upto].
    + intros H. apply mkdir_inv in H as [(_ & _ & ? & _) | (e & ? & _)];
        discriminate.
    + intros H. apply bind_inv in H as [(u & w2 & _ & H) | (e & _ & ?)];
        [|discriminate].
      rewrite take_ge in H by lia.
      apply mkdir_inv in H as [(_ & -> & Hp & _) | (e & ? & _)];
        [|discriminate].
      apply lookup_node_None in Hp as [Hne _].
      rewrite lookup_node_ne by assumption. simpl.
      rewrite lookup_insert_eq. eauto.
Qed.

Section SimulationLoops.
Context (s0 w1 : world).

Lemma sim_for_each {A} (Pre : world -> Prop) (xs : list A)
    (body : A -> M unit) :
  (forall x, respects evolves (body x)) ->
  (forall s s', Pre s -> evolves s s' -> Pre s') ->
  (forall x s t r s', x ∈ xs -> Pre s ->
     follows s0 w1 s t -> evolves s' w1 -> body x s = (r, s') ->
     exists t', body x t = (r, t') /\ follows s0 w1 s' t') ->
  forall s t r s', Pre s ->
    follows s0 w1 s t -> evolves s' w1 -> for_each xs body s = (r, s') ->
    exists t', for_each xs body t = (r, t') /\ follows s0 w1 s' t'.
Proof.
  intros Hev Hstable. induction xs as [|x xs IH]; intros Hbody s t r s' Hpre Hf He' H.
  - injection H as <- <-. now exists t.
  - cbn [for_each] in *.
    apply bind_inv in H as [([] & s1 & H1 & H) | (e & H1 & ->)].
    + assert (He1 : evolves s1 w1).
      { transitivity s'; [|exact He'].
        eapply (respects_for_each evolves); [|exact H].
        intros y _. apply Hev. }
      destruct (Hbody x s t _ _ ltac:(left) Hpre Hf He1 H1)
        as (t1 & Ht1 & Hf1).
      destruct (IH (fun y s t r s' Hy => Hbody y s t r s' ltac:(now right))
                   s1 t1 r s') as (t' & Ht & Hf'); try assumption.
      { eapply Hstable; [exact Hpre|]. eapply Hev, H1. }
      exists t'. split; [|assumption].
      now rewrite (bind_ok _ _ _ _ _ Ht1).
    + destruct (Hbody x s t _ _ ltac:(left) Hpre Hf He' H1)
        as (t1 & Ht1 & Hf1).
      exists t1. split; [|assumption].
      now rewrite (bind_raise _ _ _ _ _ Ht1).
Qed.

Lemma sim_process_channel cfg chs base dir sc s t r s' :
  follows s0 w1 s t -> evolves s' w1 ->
  is_Some (lookup_node s dir) ->
  process_channel cfg chs base dir sc s = (r, s') ->
  exists t', process_channel cfg chs base dir sc t = (r, t') /\
             follows s0 w1 s' t'.
Proof.
  intros Hf He' Hdir. destruct sc as [suffix idx]. unfold process_channel.
  destruct (idx <? length chs)%nat.
  2: { intros H. injection H as <- <-. now exists t. }
  destruct (chs !! idx) as [ch|].
  2: { intros H. injection H as <- <-. now exists t. }
  unfold letter. destruct (String.get 1 suffix) as [x|].
  2: { intros H. injection H as <- <-. now exists t. }
  unfold bind at 1 3, ret. cbn beta.
  set (p := path_join dir (base +:+ suffix +:+ ".png")%string).
  set (c := if wants_invert _ _ then _ else _).
  intros H. apply bind_inv in H as [([] & s1 & H1 & H) | (e & H1 & ->)].
  - assert (He1 : evolves s1 w1).
    { transitivity s'; [eapply evolves_print, H | exact He']. }
    destruct (sim_save s0 w1 c p s t (Ok tt) s1 Hf He1) as (t1 & Ht1 & Hf1);
      [unfold p, path_join; now rewrite parent_snoc | exact H1|].
    destruct (sim_print s0 w1 _ _ _ _ _ Hf1 H) as (t' & Ht' & Hf').
    exists t'. split; [|exact Hf'].
    now rewrite (bind_ok _ _ _ _ _ Ht1).
  - destruct (sim_save s0 w1 c p s t (Raise e) s' Hf He') as (t1 & Ht1 & Hf1);
      [unfold p, path_join; now rewrite parent_snoc | exact H1|].
    exists t1. split; [|exact Hf1].
    now rewrite (bind_raise _ _ _ _ _ Ht1).
Qed.

End SimulationLoops.

Section SimulationFile.
Context (s0 w1 : world) (cfg : config).

Lemma sim_channels_then_print filename chs base dir s t r s' :
  follows s0 w1 s t -> evolves s' w1 ->
  is_Some (lookup_node s dir) ->
  match for_each channel_info (process_channel cfg chs base dir) s with
  | (Raise e, w2) => (Raise e, w2)
  | (Ok _, w2) => print (Processed filename) w2
  end = (r, s') ->
  exists t',
    match for_each channel_info (process_channel cfg chs base dir) t with
    | (Raise e, w2) => (Raise e, w2)
    | (Ok _, w2) => print (Processed filename) w2
    end = (r, t') /\ follows s0 w1 s' t'.
Proof.
  intros Hf He' Hdir H.
  destruct (for_each channel_info (process_channel cfg chs base dir) s)
    as [r2 s2] eqn:H2.
  assert (He2 : evolves s2 w1).
  { destruct r2 as [[]|e].
    - transitivity s'; [eapply evolves_print, H | exact He'].
    - now injection H as <- <-. }
  destruct (sim_for_each s0 w1 (fun s => is_Some (lookup_node s dir))
              channel_info (process_channel cfg chs base dir)) with
    (s := s) (t := t) (r := r2) (s' := s2)
    as (t2 & Ht2 & Hf2); try assumption.
  { intros x. apply evolves_process_channel. }
  { intros a b Ha Hab. eapply evolves_is_Some; eassumption. }
  { intros x a b ra a' _ Ha Hfa Hea Hx.
    eapply sim_process_channel; eassumption. }
  rewrite Ht2. destruct r2 as [[]|e].
  - eapply sim_print; eassumption.
  - injection H as <- <-. now exists t2.
Qed.

Lemma evolves_channels_then_print filename chs base dir s r s' :
  match for_each channel_info (process_channel cfg chs base dir) s with
  | (Raise e, w2) => (Raise e, w2)
  | (Ok _, w2) => print (Processed filename) w2
  end = (r, s') ->
  evolves s s'.
Proof.
  destruct (for_each channel_info (process_channel cfg chs base dir) s)
    as [[[]|e] s2] eqn:H2; intros H.
  - transitivity s2.
    + eapply (respects_for_each evolves); [|exact H2].
      intros x _. apply evolves_process_channel.
    + eapply evolves_print, H.
  - injection H as <- <-.
    eapply (respects_for_each evolves); [|exact H2].
    intros x _. apply evolves_process_channel.
Qed.

(** The source reads the same in both runs when the first run leaves it
    as it found it. *)
Lemma follows_source s t p :
  follows s0 w1 s t -> p <> [] ->
  nodes w1 !! p = nodes s0 !! p ->
  lookup_node t p = lookup_node s p.
Proof.
  intros [_ H] Hne Hsrc. rewrite !lookup_node_ne by assumption.
  destruct (H p) as [E | [E1 E2]]; congruence.
Qed.

Lemma Image_open_same p s t r s1 :
  env t = env s ->
  lookup_node t p = lookup_node s p ->
  Image_open p s = (r, s1) -> Image_open p t = (r, t) /\ s1 = s.
Proof.
  unfold Image_open, raise. intros Henv ->.
  rewrite (unreadable_env s t Henv).
  destruct (lookup_node s p) as [[[|img]|]|];
    try destruct (bool_decide (p ∈ unreadable s)); intros H;
    injection H as <- <-; now split.
Qed.

Lemma sim_process_file filename s t r s' :
  follows s0 w1 s t -> evolves s' w1 ->
  is_Some (lookup_node s (output_folder cfg)) ->
  nodes w1 !! path_join (input_folder cfg) filename
    = nodes s0 !! path_join (input_folder cfg) filename ->
  process_file cfg filename s = (r, s') ->
  exists t', process_file cfg filename t = (r, t') /\ follows s0 w1 s' t'.
Proof.
  intros Hf He' Hout Hsrc H. rewrite process_file_eq in H |- *.
  assert (Hlk : lookup_node t (path_join (input_folder cfg) filename)
                = lookup_node s (path_join (input_folder cfg) filename)).
  { apply follows_source; try assumption. unfold path_join.
    now destruct (input_folder cfg). }
  destruct (Image_open (path_join (input_folder cfg) filename) s)
    as [ro so] eqn:Ho.
  destruct (Image_open_same _ _ _ _ _ (proj1 Hf) Hlk Ho) as [Ht ->].
  rewrite Ht.
  destruct ro as [img|e]; [|injection H as <- <-; now exists t].
  destruct (is_truncated img); [injection H as <- <-; now exists t|].
  unfold output_dir_of in *. destruct (create_subfolders cfg).
  - destruct (ensure_dir (path_join (output_folder cfg)
                              (Str.splitext filename).1) s)
      as [[[]|e] s1] eqn:H1.
    + pose proof (evolves_channels_then_print _ _ _ _ _ _ _ H) as He1.
      destruct (sim_ensure_child s0 w1 (output_folder cfg)
                  (Str.splitext filename).1 s t (Ok tt) s1 Hf)
        as (t1 & Ht1 & Hf1); try assumption.
      { now transitivity s'. }
      fold (path_join (output_folder cfg) (Str.splitext filename).1) in Ht1.
      rewrite Ht1.
      eapply sim_channels_then_print; try eassumption.
      eapply ensure_dir_ok_exists, H1.
    + injection H as <- <-.
      destruct (sim_ensure_child s0 w1 (output_folder cfg)
                  (Str.splitext filename).1 s t (Raise e) s1 Hf)
        as (t1 & Ht1 & Hf1); try assumption.
      fold (path_join (output_folder cfg) (Str.splitext filename).1) in Ht1.
      rewrite Ht1. now exists t1.
  - eapply sim_channels_then_print; eassumption.
Qed.

Lemma sim_process_entry filename s t r s' :
  follows s0 w1 s t -> evolves s' w1 ->
  is_Some (lookup_node s (output_folder cfg)) ->
  (eligible filename = true ->
   nodes w1 !! path_join (input_folder cfg) filename
     = nodes s0 !! path_join (input_folder cfg) filename) ->
  process_entry cfg filename s = (r, s') ->
  exists t', process_entry cfg filename t = (r, t') /\ follows s0 w1 s' t'.
Proof.
  intros Hf He' Hout Hsrc.
  destruct (eligible filename) eqn:Hel.
  2: { rewrite !process_entry_skip by exact Hel.
       intros H. injection H as <- <-. now exists t. }
  rewrite !process_entry_eligible by exact Hel.
  destruct (process_file cfg filename s) as [r1 s1] eqn:H1; intros H.
  assert (He1 : evolves s1 w1).
  { destruct r1 as [[]|e].
    - now injection H as _ <-.
    - transitivity s'; [eapply evolves_print, H | exact He']. }
  destruct (sim_process_file filename s t _ _ Hf He1 Hout (Hsrc eq_refl) H1)
    as (t1 & Ht1 & Hf1).
  rewrite Ht1. destruct r1 as [[]|e].
  - injection H as <- <-. now exists t1.
  - eapply sim_print; eassumption.
Qed.

End SimulationFile.

Lemma for_each_filter cfg names w :
  for_each names (process_entry cfg) w
  = for_each (List.filter eligible names) (process_entry cfg) w.
Proof.
  revert w; induction names as [|f names IH]; intros w; [reflexivity|].
  simpl List.filter. destruct (eligible f) eqn:He; cbn [for_each].
  - unfold bind. destruct (process_entry cfg f w) as [[[]|e] w1];
      [apply IH | reflexivity].
  - rewrite (bind_ok _ _ _ _ _ (process_entry_skip cfg f w He)). apply IH.
Qed.

Lemma listdir_ok_inv d w names w' :
  listdir d w = (Ok names, w') ->
  w' = w /\ names = children w d /\ lookup_node w d = Some Dir /\
  d ∉ unreadable w.
Proof.
  unfold listdir, raise. destruct (lookup_node w d) as [[c|]|];
    intros H; try discriminate.
  destruct (bool_decide (d ∈ unreadable w)) eqn:Hd; [discriminate|].
  apply bool_decide_eq_false in Hd.
  injection H as <- <-. now repeat split.
Qed.

Lemma listdir_ok d w :
  lookup_node w d = Some Dir -> d ∉ unreadable w ->
  listdir d w = (Ok (children w d), w).
Proof.
  intros Hd Hr. unfold listdir. rewrite Hd.
  now rewrite bool_decide_eq_false_2 by exact Hr.
Qed.

Lemma ensure_dir_present p w :
  is_Some (lookup_node w p) -> ensure_dir p w = (Ok tt, w).
Proof.
  intros H. unfold ensure_dir, bind, path_exists.
  now rewrite bool_decide_eq_true_2 by assumption.
Qed.

Lemma follows_start s0 w1 : evolves s0 w1 -> follows s0 w1 s0 w1.
Proof. intros [Hd _]. split; [exact Hd|]. intros p. now right. Qed.

Lemma follows_end s0 w1 w2 : follows s0 w1 w1 w2 -> nodes w2 = nodes w1.
Proof.
  intros [_ H]. apply map_eq. intros p. destruct (H p) as [E | [_ E]]; exact E.
Qed.

(** C6.  A second run over the same inputs changes no file.  When a run
    has completed and has left the inputs as it found them (the same
    eligible names are enumerated, in the same order, and the source
    files hold what they held), the next run with the same configuration,
    in the environment the first run left (same permissions, same
    standard output), completes too and every path of the store holds
    what the first run left there: each output is written again with the
    same content over the file of the first run.  A write to an existing
    file replaces its content. *)
Theorem C6_second_run_changes_nothing (cfg : config) (w w1 : world) :
  process_texture_channels cfg w = (Ok PyNone, w1) ->
  snapshot cfg w1 = snapshot cfg w ->
  (forall f, f ∈ snapshot cfg w ->
     nodes w1 !! path_join (input_folder cfg) f
     = nodes w !! path_join (input_folder cfg) f) ->
  (exists w2, process_texture_channels cfg w1 = (Ok PyNone, w2) /\
              nodes w2 = nodes w1) /\
  (forall ch p c w0,
     lookup_node w0 p = Some (File c) ->
     lookup_node w0 (parent p) = Some Dir -> p ∉ denied w0 ->
     exists w0', save ch p w0 = (Ok tt, w0') /\
                 nodes w0' = <[p := File (Picture (ImgL ch))]> (nodes w0)).
Proof.
  intros H Hsnap Hsrc. split.
  2: { intros ch p c w0 Hp Hq Hd. eexists. split.
       - apply save_ok; [exact Hq | congruence | exact Hd].
       - reflexivity. }
  apply process_texture_channels_ok in H as (_ & s0 & names & H0 & Hl & Hloop).
  apply listdir_ok_inv in Hl as (_ & Hnames & Hin & Hread).
  assert (He : evolves s0 w1) by (eapply evolves_directory_loop, Hloop).
  assert (Hout : is_Some (lookup_node s0 (output_folder cfg)))
    by (eapply ensure_dir_ok_exists, H0).
  assert (E0 : snapshot cfg w = List.filter eligible names).
  { unfold snapshot. rewrite (bind_ok _ _ _ _ _ H0).
    now rewrite listdir_ok, Hnames by assumption. }
  assert (H0' : ensure_dir (output_folder cfg) w1 = (Ok tt, w1)).
  { apply ensure_dir_present. eapply evolves_is_Some; eassumption. }
  assert (Hin' : lookup_node w1 (input_folder cfg) = Some Dir)
    by (eapply evolves_dir; eassumption).
  assert (Hl' : listdir (input_folder cfg) w1
                = (Ok (children w1 (input_folder cfg)), w1)).
  { apply listdir_ok; [exact Hin'|].
    now rewrite (unreadable_env s0 w1 (proj1 He)). }
  assert (E1 : snapshot cfg w1
               = List.filter eligible (children w1 (input_folder cfg))).
  { unfold snapshot. rewrite (bind_ok _ _ _ _ _ H0'). now rewrite Hl'. }
  rewrite for_each_filter, <- E0 in Hloop.
  destruct (sim_for_each s0 w1
              (fun s => is_Some (lookup_node s (output_folder cfg)))
              (snapshot cfg w) (process_entry cfg)) with
    (s := s0) (t := w1) (r := Ok tt) (s' := w1)
    as (w2 & H2 & Hf2); try assumption.
  - intros f. apply evolves_process_entry.
  - intros a b Ha Hab. eapply evolves_is_Some; eassumption.
  - intros f a b ra a' Hf Ha Hfa Hea Hx.
    eapply sim_process_entry; try eassumption.
    intros _. rewrite (Hsrc f Hf).
    apply makes_dirs_ensure_dir in H0.
    destruct (H0 (path_join (input_folder cfg) f)) as [E | (N & D & _)];
      [now symmetry|].
    exfalso. assert (Hd : lookup_node s0 (path_join (input_folder cfg) f)
                          = Some Dir).
    { rewrite lookup_node_ne; [exact D|].
      unfold path_join. now destruct (input_folder cfg). }
    apply (evolves_dir _ _ _ He) in Hd.
    rewrite lookup_node_ne in Hd
      by (unfold path_join; now destruct (input_folder cfg)).
    rewrite (Hsrc f Hf), N in Hd. discriminate.
  - now apply follows_start.
  - reflexivity.
  - exists w2. split; [|eapply follows_end, Hf2].
    unfold process_texture_channels.
    rewrite (bind_ok _ _ _ _ _ H0'), (bind_ok _ _ _ _ _ Hl').
    rewrite <- Hsnap, E1, <- for_each_filter in H2.
    now rewrite (bind_ok _ _ _ _ _ H2).
Qed.

Lemma C6_second_run_changes_nothing_witness :
  let w1 := (process_texture_channels cfg_scenario w_scenario).2 in
  (exists w2, process_texture_channels cfg_scenario w1 = (Ok PyNone, w2) /\
              nodes w2 = nodes w1) /\
  (forall ch p c w0,
     lookup_node w0 p = Some (File c) ->
     lookup_node w0 (parent p) = Some Dir -> p ∉ denied w0 ->
     exists w0', save ch p w0 = (Ok tt, w0') /\
                 nodes w0' = <[p := File (Picture (ImgL ch))]> (nodes w0)).
Proof.
  intros w1.
  apply (C6_second_run_changes_nothing cfg_scenario w_scenario w1).
  - vm_compute. reflexivity.
  - vm_compute. reflexivity.
  - intros f Hf.
    assert (Es : snapshot cfg_scenario w_scenario = ["wall_rmo.png"%string])
      by (vm_compute; reflexivity).
    rewrite Es in Hf. apply list_elem_of_singleton in Hf. subst f.
    vm_compute. reflexivity.
Defined.

(** ** The scenarios of the specification *)

Example scenario_wall :
  run cfg_scenario w_scenario =
  (Ok PyNone,
   map_to_list (nodes (process_texture_channels cfg_scenario w_scenario).2),
   [Saved ["out"; "wall_rmo"; "wall_rmo_r.png"];
    Saved ["out"; "wall_rmo"; "wall_rmo_g.png"];
    Saved ["out"; "wall_rmo"; "wall_rmo_b.png"];
    Saved ["out"; "wall_rmo"; "wall_rmo_a.png"];
    Processed "wall_rmo.png"]%string).
Proof. vm_compute. reflexivity. Qed.

Example scenario_wall_pixels :
  let w' := (process_texture_channels cfg_scenario w_scenario).2 in
  nodes w' !! ["out"; "wall_rmo"; "wall_rmo_r.png"]%string
    = Some (File (Picture (ImgL (solid 55)))) /\
  nodes w' !! ["out"; "wall_rmo"; "wall_rmo_g.png"]%string
    = Some (File (Picture (ImgL (solid 100)))) /\
  nodes w' !! ["out"; "wall_rmo"; "wall_rmo_b.png"]%string
    = Some (File (Picture (ImgL (solid 50)))) /\
  nodes w' !! ["out"; "wall_rmo"; "wall_rmo_a.png"]%string
    = Some (File (Picture (ImgL (solid 255)))) /\
  nodes w' !! ["out"; "floor_diffuse"]%string = None.
Proof. vm_compute. repeat split. Qed.

Example scenario_batch_continues :
  children w_batch ["tex"%string] = ["torn_rmo.png"; "wall_rmo.png"]%string /\
  log (process_texture_channels cfg_scenario w_batch).2 =
  [ErrorProcessing "torn_rmo.png" UnidentifiedImageError;
   Saved ["out"; "wall_rmo"; "wall_rmo_r.png"];
   Saved ["out"; "wall_rmo"; "wall_rmo_g.png"];
   Saved ["out"; "wall_rmo"; "wall_rmo_b.png"];
   Saved ["out"; "wall_rmo"; "wall_rmo_a.png"];
   Processed "wall_rmo.png"]%string.
Proof. vm_compute. split; reflexivity. Qed.

Example splitext_examples :
  Str.splitext "wall_rmo.png" = ("wall_rmo", ".png")%string /\
  Str.splitext ".._rmo" = (".._rmo", "")%string /\
  Str.splitext "a.b/c" = ("a.b/c", "")%string /\
  Str.splitext "a/.x.tar.gz" = ("a/.x.tar", ".gz")%string /\
  Str.splitext "..." = ("...", "")%string.
Proof. repeat split. Qed.

Example eligible_examples :
  eligible "Metal_RMO.TGA" = true /\
  eligible "floor_diffuse.png" = false /\
  eligible "wall_rmo.txt" = false /\
  eligible "wall_rmo.png.bak" = false /\
  eligible "_rmo.jpeg" = true.
Proof. repeat split. Qed.

(** * Further properties of the script *)

(** ** What a run may touch *)

Global Instance spares_denied_refl : Reflexive spares_denied.
Proof. intros w. now split. Qed.

Global Instance spares_denied_trans : Transitive spares_denied.
Proof.
  intros a b c [D1 H1] [D2 H2]. split; [congruence|].
  intros p Hp. rewrite H2 by (now rewrite (denied_env a b D1)). now apply H1.
Qed.

Lemma spares_denied_mkdir p : respects spares_denied (mkdir p).
Proof.
  intros w r w' H.
  apply mkdir_inv in H as [(_ & -> & _ & _ & Hd) | (e & _ & ->)];
    [|reflexivity].
  split; [reflexivity|]. intros q Hq. simpl.
  apply lookup_insert_ne. congruence.
Qed.

Lemma spares_denied_save ch p : respects spares_denied (save ch p).
Proof.
  intros w r w' H.
  apply save_inv in H as [(_ & -> & _ & _ & Hd) | (e & _ & ->)];
    [|reflexivity].
  split; [reflexivity|]. intros q Hq. simpl.
  apply lookup_insert_ne. congruence.
Qed.

Lemma spares_denied_print l : respects spares_denied (print l).
Proof.
  intros w r w' H.
  apply print_inv in H as [(_ & _ & ->) | (e & _ & _ & ->)];
    [now split | reflexivity].
Qed.

Global Instance touches_only_refl cfg : Reflexive (touches_only cfg).
Proof. intros w p. now left. Qed.

Global Instance touches_only_trans cfg : Transitive (touches_only cfg).
Proof.
  intros a b c H1 H2 p.
  destruct (H2 p) as [E2 | [(N2 & D2) | O2]].
  - rewrite E2. apply H1.
  - destruct (H1 p) as [E1 | [(N1 & D1) | (_ & ch & F1)]].
    + right; left. split; congruence.
    + congruence.
    + congruence.
  - now (right; right).
Qed.

Lemma touches_only_mkdir cfg p : respects (touches_only cfg) (mkdir p).
Proof.
  intros w r w' H.
  apply mkdir_inv in H as [(_ & -> & Hn & _) | (e & _ & ->)]; [|reflexivity].
  apply lookup_node_None in Hn as [_ Hn]. intros q. simpl.
  destruct (decide (p = q)) as [<- | Hq].
  - right; left. now rewrite lookup_insert_eq.
  - left. now rewrite lookup_insert_ne.
Qed.

Lemma touches_only_save cfg ch filename suffix :
  eligible filename = true -> suffix ∈ suffixes ->
  respects (touches_only cfg) (save ch (output_path_of cfg filename suffix)).
Proof.
  intros He Hs w r w' H.
  apply save_inv in H as [(_ & -> & _) | (e & _ & ->)]; [|reflexivity].
  intros q. simpl.
  destruct (decide (output_path_of cfg filename suffix = q)) as [<- | Hq].
  - right; right. split; [now exists filename, suffix|].
    exists ch. apply lookup_insert_eq.
  - left. now rewrite lookup_insert_ne.
Qed.

Lemma touches_only_print cfg l : respects (touches_only cfg) (print l).
Proof.
  intros w r w' H.
  apply print_inv in H as [(_ & _ & ->) | (e & _ & _ & ->)];
    intros p; now left.
Qed.

Lemma run_touches_only cfg : respects (touches_only cfg)
                              (process_texture_channels cfg).
Proof.
  apply (run_respects (touches_only cfg) cfg).
  - apply touches_only_mkdir.
  - intros ch f sfx He Hs. apply respects_bind; try apply _;
      [now apply touches_only_save | intros _; apply touches_only_print].
  - intros f. apply touches_only_print.
  - intros f e. apply touches_only_print.
Qed.


Global Instance log_grows_refl : Reflexive log_grows.
Proof. intros w. exists []. now rewrite app_nil_r. Qed.

Global Instance log_grows_trans : Transitive log_grows.
Proof.
  intros a b c [l1 E1] [l2 E2]. exists (l1 ++ l2).
  now rewrite E2, E1, app_assoc.
Qed.

Lemma log_grows_quiet {A} (m : M A) : respects quiet m -> respects log_grows m.
Proof.
  intros Hm w r w' H. apply Hm in H as [E _]. exists [].
  now rewrite app_nil_r.
Qed.

Lemma log_grows_print l : respects log_grows (print l).
Proof.
  intros w r w' H.
  apply print_inv in H as [(_ & _ & ->) | (e & _ & _ & ->)];
    [now exists [l] | reflexivity].
Qed.

Lemma run_log_grows cfg : respects log_grows (process_texture_channels cfg).
Proof.
  apply (run_respects log_grows cfg).
  - intros p. apply log_grows_quiet, quiet_mkdir.
  - intros ch f sfx _ _. apply respects_bind; try apply _;
      [apply log_grows_quiet, quiet_save | intros _; apply log_grows_print].
  - intros f. apply log_grows_print.
  - intros f e. apply log_grows_print.
Qed.
(** ** What a run never does *)

(** X1.  Whatever its outcome, a call removes nothing and retypes
    nothing: a folder is still a folder, a file is still a file, the
    permissions are unchanged, a denied path holds what it held, and the
    log has only grown. *)
Theorem run_never_removes (cfg : config) (w w' : world) (r : result pyvalue) :
  process_texture_channels cfg w = (r, w') ->
  denied w' = denied w /\
  (forall p, lookup_node w p = Some Dir -> lookup_node w' p = Some Dir) /\
  (forall p c, lookup_node w p = Some (File c) ->
               exists c', lookup_node w' p = Some (File c')) /\
  (forall p, p ∈ denied w -> nodes w' !! p = nodes w !! p) /\
  exists l, log w' = log w ++ l.
Proof.
  intros H.
  assert (He : evolves w w').
  { eapply (run_respects evolves cfg); [| | | |exact H].
    - apply evolves_mkdir.
    - intros ch f sfx _ _. apply respects_bind; try apply _;
        [apply evolves_save | intros _; apply evolves_print].
    - intros f. apply evolves_print.
    - intros f e. apply evolves_print. }
  assert (Hs : spares_denied w w').
  { eapply (run_respects spares_denied cfg); [| | | |exact H].
    - apply spares_denied_mkdir.
    - intros ch f sfx _ _. apply respects_bind; try apply _;
        [apply spares_denied_save | intros _; apply spares_denied_print].
    - intros f. apply spares_denied_print.
    - intros f e. apply spares_denied_print. }
  split; [apply denied_env, He|]. split; [intros p; now apply evolves_dir|].
  split; [intros p c; now apply evolves_file|]. split; [apply Hs|].
  eapply run_log_grows, H.
Qed.

Lemma run_never_removes_witness :
  let w' := (process_texture_channels cfg_scenario w_batch).2 in
  denied w' = denied w_batch /\
  (forall p, lookup_node w_batch p = Some Dir -> lookup_node w' p = Some Dir) /\
  (forall p c, lookup_node w_batch p = Some (File c) ->
               exists c', lookup_node w' p = Some (File c')) /\
  (forall p, p ∈ denied w_batch -> nodes w' !! p = nodes w_batch !! p) /\
  exists l, log w' = log w_batch ++ l.
Proof.
  apply (run_never_removes cfg_scenario w_batch _ (Ok PyNone)).
  vm_compute. reflexivity.
Defined.

(** X2.  A call touches nothing but its outputs: after it, every path
    of the store holds what it held, or is a folder that was missing, or
    is an output path [<dir>/<basename><suffix>.png] of an eligible name
    and holds a grayscale image. *)
Theorem run_touches_only_outputs (cfg : config) (w w' : world)
    (r : result pyvalue) :
  process_texture_channels cfg w = (r, w') ->
  forall p, nodes w' !! p = nodes w !! p \/
            (nodes w !! p = None /\ nodes w' !! p = Some Dir) \/
            (exists filename suffix ch,
               eligible filename = true /\ suffix ∈ suffixes /\
               p = output_path_of cfg filename suffix /\
               nodes w' !! p = Some (File (Picture (ImgL ch)))).
Proof.
  intros H p.
  assert (Ht : touches_only cfg w w').
  { eapply run_touches_only, H. }
  destruct (Ht p) as [E | [N | ((f & sfx & He & Hs & ->) & ch & F)]];
    [now left | now (right; left)|].
  right; right. now exists f, sfx, ch.
Qed.

Lemma run_touches_only_outputs_witness :
  let w' := (process_texture_channels cfg_scenario w_batch).2 in
  let p := ["out"; "wall_rmo"; "wall_rmo_r.png"]%string in
  nodes w' !! p = nodes w_batch !! p \/
  (nodes w_batch !! p = None /\ nodes w' !! p = Some Dir) \/
  (exists filename suffix ch,
     eligible filename = true /\ suffix ∈ suffixes /\
     p = output_path_of cfg_scenario filename suffix /\
     nodes w' !! p = Some (File (Picture (ImgL ch)))).
Proof.
  intros w' p.
  apply (run_touches_only_outputs cfg_scenario w_batch w' (Ok PyNone)).
  vm_compute. reflexivity.
Defined.

(** X3.  The source files are safe unless the script is told to write
    among them: when the source folder is neither the destination folder
    nor a folder directly inside it, every file of the source folder
    holds after the call what it held before. *)
Theorem run_keeps_sources (cfg : config) (w w' : world) (r : result pyvalue) :
  input_folder cfg <> output_folder cfg ->
  (forall b, input_folder cfg <> output_folder cfg ++ [b]) ->
  process_texture_channels cfg w = (r, w') ->
  forall filename c,
    nodes w !! path_join (input_folder cfg) filename = Some (File c) ->
    nodes w' !! path_join (input_folder cfg) filename = Some (File c).
Proof.
  intros Hne Hsub H filename c Hc.
  assert (Ht : touches_only cfg w w').
  { eapply run_touches_only, H. }
  destruct (Ht (path_join (input_folder cfg) filename))
    as [E | [(N & _) | ((f & sfx & _ & _ & Hp) & _)]]; [congruence.. |].
  exfalso. unfold output_path_of, output_dir_of, path_join in Hp.
  apply app_inj_tail in Hp as [Hp _].
  destruct (create_subfolders cfg); [exact (Hsub _ Hp) | exact (Hne Hp)].
Qed.

Lemma run_keeps_sources_witness :
  nodes (process_texture_channels cfg_scenario w_batch).2
    !! path_join (input_folder cfg_scenario) "wall_rmo.png"
  = Some (File (Picture wall)).
Proof.
  apply (run_keeps_sources cfg_scenario w_batch _ (Ok PyNone)).
  - discriminate.
  - intros b. discriminate.
  - vm_compute. reflexivity.
  - vm_compute. reflexivity.
Defined.

(** ** Start-up *)

Lemma ensure_dir_made p w w' :
  ensure_dir p w = (Ok tt, w') -> lookup_node w p = None ->
  lookup_node w' p = Some Dir.
Proof.
  unfold ensure_dir, bind at 1, path_exists. intros H Hp.
  rewrite bool_decide_eq_false_2 in H by (rewrite Hp; intros [? ?]; discriminate).
  cbn [negb] in H. unfold makedirs in H.
  destruct (length p) as [|n] eqn:Hn; cbn [makedirs_upto] in H.
  - apply mkdir_inv in H as [(_ & _ & ? & _) | (e & ? & _)]; discriminate.
  - apply bind_inv in H as [(u & w2 & _ & H) | (e & _ & ?)]; [|discriminate].
    rewrite take_ge in H by lia.
    apply mkdir_inv in H as [(_ & -> & Hq & _) | (e & ? & _)]; [|discriminate].
    apply lookup_node_None in Hq as [Hne _].
    rewrite lookup_node_ne by assumption. simpl. apply lookup_insert_eq.
Qed.

Lemma makes_dirs_files p w w' :
  makes_dirs p w w' ->
  forall q c, nodes w' !! q = Some (File c) <-> nodes w !! q = Some (File c).
Proof.
  intros Hm q c. destruct (Hm q) as [E | (N & D & _)].
  - now rewrite E.
  - rewrite N, D. split; discriminate.
Qed.

(** X4.  An exception reaches the caller only from the start-up or
    from the [print] of a handler.  When the call raises, either the
    destination folder could not be ensured or the source could not be
    listed (it is not a folder, or it may not be read), and then nothing
    has been logged and no file has been written or changed; or the
    standard output refused, with that exception, the error line of an
    eligible entry of the listing. *)
Theorem run_raises_at_startup_or_in_handler (cfg : config) (w w' : world)
    (e : exn) :
  process_texture_channels cfg w = (Raise e, w') ->
  (log w' = log w /\
   (forall p c, nodes w' !! p = Some (File c) <-> nodes w !! p = Some (File c)) /\
   (ensure_dir (output_folder cfg) w = (Raise e, w') \/
    ensure_dir (output_folder cfg) w = (Ok tt, w') /\
    (lookup_node w' (input_folder cfg) <> Some Dir \/
     input_folder cfg ∈ unreadable w /\ e = PermissionError))) \/
  (exists w0 filename e0,
     ensure_dir (output_folder cfg) w = (Ok tt, w0) /\
     listdir (input_folder cfg) w0 = (Ok (children w0 (input_folder cfg)), w0) /\
     filename ∈ children w0 (input_folder cfg) /\
     eligible filename = true /\
     stdout w (ErrorProcessing filename e0) = Some e).
Proof.
  intros H.
  apply process_texture_channels_inv in H
    as [(e' & He & Hlog & Hwhere) | (w0 & names & rl & H0 & Hl & Hloop & Hr)].
  - left. injection He as <-. split; [exact Hlog|].
    destruct Hwhere as [H0 | (w0 & H0 & H1)].
    + split; [|now left].
      eapply makes_dirs_files, makes_dirs_ensure_dir, H0.
    + pose proof (reads_only_listdir _ _ _ _ H1) as ->. split.
      * eapply makes_dirs_files, makes_dirs_ensure_dir, H0.
      * right. split; [exact H0|].
        unfold listdir, raise in H1.
        destruct (lookup_node w0 (input_folder cfg)) as [[c|]|];
          [left; discriminate | | left; discriminate].
        destruct (bool_decide (input_folder cfg ∈ unreadable w0)) eqn:Hb;
          [|discriminate].
        apply bool_decide_eq_true in Hb. injection H1 as <-.
        right. split; [|reflexivity].
        apply quiet_ensure_dir in H0 as [_ E].
        now rewrite <- (unreadable_env w w0 E).
  - right. destruct rl as [[]|e']; [discriminate|]. injection Hr as <-.
    pose proof Hl as Hl'.
    apply listdir_ok_inv in Hl' as (_ & -> & _).
    apply directory_loop_raises in Hloop as (f & e0 & Hf & Hel & Hs).
    exists w0, f, e0. repeat split; try assumption.
    apply quiet_ensure_dir in H0 as [_ E].
    now rewrite <- (stdout_env w w0 _ E).
Qed.

Lemma run_raises_at_startup_or_in_handler_witness :
  let w' := (process_texture_channels cfg_scenario w_batch_mute).2 in
  (log w' = log w_batch_mute /\
   (forall p c, nodes w' !! p = Some (File c)
                <-> nodes w_batch_mute !! p = Some (File c)) /\
   (ensure_dir (output_folder cfg_scenario) w_batch_mute
      = (Raise UnicodeEncodeError, w') \/
    ensure_dir (output_folder cfg_scenario) w_batch_mute = (Ok tt, w') /\
    (lookup_node w' (input_folder cfg_scenario) <> Some Dir \/
     input_folder cfg_scenario ∈ unreadable w_batch_mute /\
     UnicodeEncodeError = PermissionError))) \/
  (exists w0 filename e0,
     ensure_dir (output_folder cfg_scenario) w_batch_mute = (Ok tt, w0) /\
     listdir (input_folder cfg_scenario) w0
       = (Ok (children w0 (input_folder cfg_scenario)), w0) /\
     filename ∈ children w0 (input_folder cfg_scenario) /\
     eligible filename = true /\
     stdout w_batch_mute (ErrorProcessing filename e0)
       = Some UnicodeEncodeError).
Proof.
  apply (run_raises_at_startup_or_in_handler cfg_scenario w_batch_mute _
           UnicodeEncodeError).
  vm_compute. reflexivity.
Defined.

(** X5.  On a standard output that takes every error line, whether a
    call completes is decided at start-up alone: it returns exactly when
    the destination folder can be ensured and the source is then a
    folder that may be read, whatever the entries of the source are. *)
Theorem run_completes_iff_startup (cfg : config) (w : world) :
  (forall f e, stdout w (ErrorProcessing f e) = None) ->
  ((exists w', process_texture_channels cfg w = (Ok PyNone, w')) <->
   (exists w0, ensure_dir (output_folder cfg) w = (Ok tt, w0) /\
               lookup_node w0 (input_folder cfg) = Some Dir /\
               input_folder cfg ∉ unreadable w)).
Proof.
  intros Hs. split.
  - intros [w' H].
    apply process_texture_channels_ok in H as (_ & w0 & names & H0 & Hl & _).
    apply listdir_ok_inv in Hl as (_ & _ & Hin & Hr). exists w0.
    repeat split; try assumption.
    apply quiet_ensure_dir in H0 as [_ E].
    now rewrite <- (unreadable_env w w0 E).
  - intros (w0 & H0 & Hin & Hr).
    pose proof (quiet_ensure_dir _ _ _ _ H0) as [_ E].
    destruct (directory_loop cfg (children w0 (input_folder cfg)) w0)
      as (wend & H3).
    { intros f e. now rewrite (stdout_env w w0 _ E). }
    exists wend. unfold process_texture_channels.
    rewrite (bind_ok _ _ _ _ _ H0).
    assert (Hl : listdir (input_folder cfg) w0
                 = (Ok (children w0 (input_folder cfg)), w0)).
    { apply listdir_ok; [exact Hin|]. now rewrite (unreadable_env w w0 E). }
    rewrite (bind_ok _ _ _ _ _ Hl). now rewrite (bind_ok _ _ _ _ _ H3).
Qed.

Lemma run_completes_iff_startup_witness :
  (exists w', process_texture_channels cfg_scenario w_batch = (Ok PyNone, w')) <->
  (exists w0, ensure_dir (output_folder cfg_scenario) w_batch = (Ok tt, w0) /\
              lookup_node w0 (input_folder cfg_scenario) = Some Dir /\
              input_folder cfg_scenario ∉ unreadable w_batch).
Proof.
  apply (run_completes_iff_startup cfg_scenario w_batch).
  intros f e. reflexivity.
Defined.

(** X6.  After a call that completes, the destination folder exists;
    when it was missing before the call it is a folder now, also when no
    entry was eligible. *)
Theorem run_leaves_destination (cfg : config) (w w' : world) (r : pyvalue) :
  process_texture_channels cfg w = (Ok r, w') ->
  is_Some (lookup_node w' (output_folder cfg)) /\
  (lookup_node w (output_folder cfg) = None ->
   lookup_node w' (output_folder cfg) = Some Dir).
Proof.
  intros H.
  apply process_texture_channels_ok in H as (_ & w0 & names & H0 & _ & Hloop).
  assert (He : evolves w0 w') by (eapply evolves_directory_loop, Hloop).
  split.
  - eapply evolves_is_Some; [exact He|]. eapply ensure_dir_ok_exists, H0.
  - intros Hn. eapply evolves_dir; [exact He|].
    eapply ensure_dir_made; eassumption.
Qed.

Lemma run_leaves_destination_witness :
  let w' := (process_texture_channels cfg_scenario w_scenario).2 in
  is_Some (lookup_node w' (output_folder cfg_scenario)) /\
  (lookup_node w_scenario (output_folder cfg_scenario) = None ->
   lookup_node w' (output_folder cfg_scenario) = Some Dir).
Proof.
  apply (run_leaves_destination cfg_scenario w_scenario _ PyNone).
  vm_compute. reflexivity.
Defined.

(** X7.  With no eligible entry in the source folder a call that
    completes logs nothing and writes no file; all it may have done is
    make the missing folders on the way to the destination. *)
Theorem run_without_eligible_entries (cfg : config) (w w' : world)
    (r : pyvalue) :
  process_texture_channels cfg w = (Ok r, w') ->
  snapshot cfg w = [] ->
  log w' = log w /\ denied w' = denied w /\
  forall p, nodes w' !! p = nodes w !! p \/
            (nodes w !! p = None /\ nodes w' !! p = Some Dir /\
             p `prefix_of` output_folder cfg).
Proof.
  intros H Hs.
  apply process_texture_channels_ok in H as (_ & w0 & names & H0 & Hl & Hloop).
  apply listdir_ok_inv in Hl as (_ & Hnames & Hin & Hread).
  assert (E0 : snapshot cfg w = List.filter eligible names).
  { unfold snapshot. rewrite (bind_ok _ _ _ _ _ H0).
    now rewrite listdir_ok, Hnames by assumption. }
  rewrite for_each_filter, <- E0, Hs in Hloop. injection Hloop as <-.
  pose proof (quiet_ensure_dir _ _ _ _ H0) as [E1 E2].
  split; [exact E1|]. split; [now apply denied_env|].
  eapply makes_dirs_ensure_dir, H0.
Qed.

Lemma run_without_eligible_entries_witness :
  let w' := (process_texture_channels cfg_in_place w_empty).2 in
  log w' = log w_empty /\ denied w' = denied w_empty /\
  forall p, nodes w' !! p = nodes w_empty !! p \/
            (nodes w_empty !! p = None /\ nodes w' !! p = Some Dir /\
             p `prefix_of` output_folder cfg_in_place).
Proof.
  apply (run_without_eligible_entries cfg_in_place w_empty _ PyNone);
    vm_compute; reflexivity.
Defined.

(** ** Entries that cannot be read *)



(** A texture whose data is cut short opens and fails afterwards. *)
Example cut_texture_fails_after_open :
  Image_open ["tex"; "cut_rmo.png"]%string w_cut
    = (Ok (ImgTruncated RGB), w_cut) /\
  (process_file cfg_scenario "cut_rmo.png" w_cut).1 = Raise OSError /\
  log (process_texture_channels cfg_scenario w_cut).2
    = [ErrorProcessing "cut_rmo.png" OSError].
Proof. vm_compute. repeat split. Qed.
(** ** A destination that is a file *)

Lemma world_eta_nil w : World (nodes w) (env w) (log w ++ []) = w.
Proof. destruct w. simpl. now rewrite app_nil_r. Qed.

Lemma file_fails_under_file_destination cfg filename w c :
  lookup_node w (output_folder cfg) = Some (File c) ->
  (forall b, lookup_node w (output_folder cfg ++ [b]) = None) ->
  forall r w', process_file cfg filename w = (r, w') ->
  w' = w /\ exists e, r = Raise e.
Proof.
  intros Hout Hsub r w' H. rewrite process_file_eq in H.
  destruct (Image_open _ w) as [[img|e] w0] eqn:Ho;
    apply reads_only_Image_open in Ho as ->.
  2: { injection H as <- <-. eauto. }
  destruct (is_truncated img) eqn:Ht; [injection H as <- <-; eauto|].
  unfold output_dir_of in H. destruct (create_subfolders cfg).
  - unfold path_join in H at 1. rewrite ensure_dir_child in H
      by (rewrite Hout; eauto).
    rewrite bool_decide_eq_false_2 in H
      by (rewrite Hsub; intros [? ?]; discriminate).
    unfold mkdir in H. rewrite Hsub, parent_snoc, Hout in H.
    injection H as <- <-. eauto.
  - destruct (channels_of_four img Ht) as (cr & cg & cb & ca & Hc).
    rewrite Hc in H. unfold channel_info in H. cbn [for_each] in H.
    destruct (process_channel cfg [cr; cg; cb; ca] (Str.splitext filename).1
                (output_folder cfg) ("_r"%string, 0%nat) w)
      as [r1 w1] eqn:H1.
    pose proof H1 as H1'.
    eapply process_channel_inv in H1'; [|reflexivity..].
    destruct H1' as [(_ & _ & _ & Hp & _) |
                     [(e & -> & ->) | (e & _ & _ & _ & Hp & _)]].
    + unfold path_join in Hp. rewrite parent_snoc, Hout in Hp. discriminate.
    + rewrite (bind_raise _ _ _ _ _ H1) in H. injection H as <- <-. eauto.
    + unfold path_join in Hp. rewrite parent_snoc, Hout in Hp. discriminate.
Qed.

Lemma loop_under_file_destination cfg names w c :
  lookup_node w (output_folder cfg) = Some (File c) ->
  (forall b, lookup_node w (output_folder cfg ++ [b]) = None) ->
  exists r l,
    for_each names (process_entry cfg) w
    = (r, World (nodes w) (env w) (log w ++ l)) /\
    count_processed l = 0%nat /\ count_saved l = 0%nat /\
    ((forall f e, stdout w (ErrorProcessing f e) = None) ->
     r = Ok tt /\
     count_failed l = length (List.filter eligible names)).
Proof.
  revert w; induction names as [|f names IH]; intros w Hout Hsub.
  - exists (Ok tt), []. rewrite world_eta_nil.
    split; [reflexivity|]. split; [reflexivity|]. split; [reflexivity|].
    intros _. now split.
  - cbn [for_each]. simpl List.filter. destruct (eligible f) eqn:He.
    + destruct (process_file cfg f w) as [r w1] eqn:Hf.
      destruct (file_fails_under_file_destination _ _ _ _ Hout Hsub _ _ Hf)
        as [-> [e ->]].
      destruct (stdout w (ErrorProcessing f e)) as [e'|] eqn:Hs.
      * assert (H1 : process_entry cfg f w = (Raise e', w)).
        { rewrite process_entry_eligible, Hf by exact He.
          now apply print_raises. }
        exists (Raise e'), []. rewrite (bind_raise _ _ _ _ _ H1), world_eta_nil.
        split; [reflexivity|]. split; [reflexivity|]. split; [reflexivity|].
        intros Hall. now rewrite Hall in Hs.
      * set (w1 := World (nodes w) (env w) (log w ++ [ErrorProcessing f e])).
        assert (H1 : process_entry cfg f w = (Ok tt, w1)).
        { rewrite process_entry_eligible, Hf by exact He.
          now apply print_ok. }
        destruct (IH w1 Hout Hsub) as (r & l & H2 & P0 & S0 & F0).
        exists r, (ErrorProcessing f e :: l).
        rewrite (bind_ok _ _ _ _ _ H1), H2.
        split; [simpl; now rewrite <- app_assoc|].
        unfold count_processed, count_saved, count_failed in *. simpl.
        split; [exact P0|]. split; [exact S0|]. intros Hall.
        destruct (F0 Hall) as [-> ->]. now split.
    + rewrite (bind_ok _ _ _ _ _ (process_entry_skip cfg f w He)).
      now apply IH.
Qed.

(** X9.  The destination is tested with [os.path.exists] only.  When
    the destination path is an existing file (with nothing below it) and
    the source folder can be listed, no file is written, no entry is
    processed and no [Saved] line is printed, however the call ends; when
    the standard output takes every error line, the call completes and
    each eligible entry of the source folder leaves one error line. *)
Theorem run_with_file_as_destination (cfg : config) (w : world) (c : content) :
  lookup_node w (output_folder cfg) = Some (File c) ->
  (forall b, lookup_node w (output_folder cfg ++ [b]) = None) ->
  lookup_node w (input_folder cfg) = Some Dir ->
  input_folder cfg ∉ unreadable w ->
  exists r l,
    process_texture_channels cfg w
    = (r, World (nodes w) (env w) (log w ++ l)) /\
    count_processed l = 0%nat /\ count_saved l = 0%nat /\
    ((forall f e, stdout w (ErrorProcessing f e) = None) ->
     r = Ok PyNone /\
     count_failed l
     = length (List.filter eligible (children w (input_folder cfg)))).
Proof.
  intros Hout Hsub Hin Hread.
  destruct (loop_under_file_destination cfg
              (children w (input_folder cfg)) w c Hout Hsub)
    as (r & l & H & Hp & Hs & Hc).
  exists (match r with Ok _ => Ok PyNone | Raise e => Raise e end), l.
  split; [|split; [exact Hp|split; [exact Hs|]]].
  - unfold process_texture_channels.
    rewrite (bind_ok _ _ _ _ _
               (ensure_dir_present _ w ltac:(rewrite Hout; eauto))).
    rewrite (bind_ok _ _ _ _ _ (listdir_ok _ _ Hin Hread)).
    unfold bind. rewrite H. now destruct r as [[]|].
  - intros Hall. destruct (Hc Hall) as [-> ->]. now split.
Qed.

Lemma run_with_file_as_destination_witness :
  exists r l,
    process_texture_channels cfg_scenario w_blocked
    = (r, World (nodes w_blocked) (env w_blocked) (log w_blocked ++ l)) /\
    count_processed l = 0%nat /\ count_saved l = 0%nat /\
    ((forall f e, stdout w_blocked (ErrorProcessing f e) = None) ->
     r = Ok PyNone /\
     count_failed l
     = length (List.filter eligible
                 (children w_blocked (input_folder cfg_scenario)))).
Proof.
  apply (run_with_file_as_destination cfg_scenario w_blocked Garbage).
  - reflexivity.
  - intros b. simpl.
    rewrite !lookup_insert_ne by discriminate. apply lookup_empty.
  - reflexivity.
  - apply not_elem_of_empty.
Defined.
(** ** The base name of an eligible entry *)

Section BaseName.
Import Str StrFacts.
Local Open Scope string_scope.
Local Arguments String.append !_ _ / : simpl nomatch.

Lemma all_dots_no_marker (a : string) :
  has_non_dot a = false -> contains "_rmo" (lower a) = false.
Proof.
  induction a as [|c a IH]; [reflexivity|]. simpl has_non_dot.
  intros H. apply orb_false_iff in H as [Hc Ha].
  apply negb_false_iff, Ascii.eqb_eq in Hc as ->.
  rewrite contains_unfold. cbn [lower]. rewrite (IH Ha). reflexivity.
Qed.

Lemma rfind_absent (c : ascii) (s : string) :
  lacks c s = true -> rfind c s = (-1)%Z.
Proof.
  intros H. destruct (rfind_cases c s) as [[_ E] | (a & r & -> & _)];
    [exact E|]. now rewrite lacks_app_cons in H.
Qed.

Lemma splitext_at_last_dot (a r : string) :
  lacks "/" (a +:+ String "." r) = true -> lacks "." r = true ->
  has_non_dot a = true ->
  splitext (a +:+ String "." r) = (a, String "." r).
Proof.
  intros Hsep Hr Ha. unfold splitext. rewrite (rfind_absent "/" _ Hsep).
  destruct (rfind_cases "." (a +:+ String "." r))
    as [[Hl _] | (a' & r' & E & Hr' & ->)];
    [now rewrite lacks_app_cons in Hl|].
  apply last_dot_unique in E as [<- <-]; try assumption.
  replace (-1 <? Z.of_nat (String.length a))%Z with true
    by (symmetry; apply Z.ltb_lt; lia).
  replace (Z.of_nat (String.length a) - (-1 + 1))%Z
    with (Z.of_nat (String.length a)) by lia.
  change (Z.to_nat (-1 + 1)) with 0%nat. rewrite Nat2Z.id. cbn [drop].
  now rewrite take_app_length, drop_app_length, Ha.
Qed.

(** X10.  For an eligible entry of a listing (a name without [/]) the
    base name of line 53 is the name without its extension, and that
    extension is, up to case, the supported extension the filter matched:
    the name is [base + ext], the marker lies in [base], and only the
    last extension is cut. *)
Theorem base_name_of_eligible (filename : string) :
  eligible filename = true -> lacks "/" filename = true ->
  exists base ext,
    splitext filename = (base, ext) /\
    filename = base +:+ ext /\
    lower ext ∈ supported_formats /\
    contains "_rmo" (lower base) = true.
Proof.
  unfold eligible. rewrite andb_true_iff, endswith_any_spec.
  intros [Hm (E & HE & pre & Hpre)] Hsep.
  destruct (supported_format_shape E HE) as (e & -> & He & Hne).
  destruct (rfind_cases "." filename) as [[Hl _] | (a & r & -> & Hr & _)].
  { rewrite <- lacks_dot_lower, Hpre, lacks_app_cons in Hl. discriminate. }
  rewrite lower_app in Hpre, Hm. cbn [lower] in Hpre, Hm.
  change (lower_char ".") with "."%char in Hpre, Hm.
  apply last_dot_unique in Hpre as [Hpre Hre]; try assumption.
  2: now rewrite lacks_dot_lower.
  rewrite contains_around_dot in Hm by (reflexivity || discriminate).
  rewrite Hre, Hne, orb_false_r in Hm.
  assert (Ha : has_non_dot a = true).
  { destruct (has_non_dot a) eqn:Ha; [reflexivity|].
    apply all_dots_no_marker in Ha. congruence. }
  exists a, (String "." r). split; [now apply splitext_at_last_dot|].
  split; [reflexivity|]. split; [|exact Hm].
  cbn [lower]. change (lower_char ".") with "."%char. now rewrite Hre.
Qed.

Lemma base_name_of_eligible_witness :
  exists base ext,
    splitext "Metal_RMO.final.TGA" = (base, ext) /\
    "Metal_RMO.final.TGA" = base +:+ ext /\
    lower ext ∈ supported_formats /\
    contains "_rmo" (lower base) = true.
Proof.
  apply (base_name_of_eligible "Metal_RMO.final.TGA"); reflexivity.
Defined.

End BaseName.

(** ** The invert set *)

Lemma wants_invert_same_letters inv inv' x :
  (x ∈ default [] inv' <-> x ∈ default [] inv) ->
  wants_invert inv' x = wants_invert inv x.
Proof. intros H. rewrite !wants_invert_spec. now apply bool_decide_ext. Qed.

Section SameLetters.
Context (cfg : config) (inv' : option (list string)).
Context (Hsame : forall x, x ∈ channel_letters ->
           (x ∈ default [] inv' <-> x ∈ default [] (invert_channels cfg))).

Lemma process_channel_same_letters chs base dir sc w :
  sc ∈ channel_info ->
  process_channel (with_invert cfg inv') chs base dir sc w
  = process_channel cfg chs base dir sc w.
Proof.
  unfold channel_info. rewrite !elem_of_cons, elem_of_nil. intros H.
  repeat destruct H as [-> | H]; try contradiction;
    unfold process_channel;
    (destruct (_ <? _)%nat; [|reflexivity]);
    (destruct (chs !! _); [|reflexivity]);
    unfold letter; cbn [String.get]; unfold bind at 1 3, ret;
    cbn [invert_channels with_invert];
    (rewrite (wants_invert_same_letters (invert_channels cfg) inv');
     [reflexivity|]);
    apply Hsame; unfold channel_letters;
    repeat first [apply list_elem_of_here | apply list_elem_of_further].
Qed.

Lemma process_file_same_letters filename w :
  process_file (with_invert cfg inv') filename w = process_file cfg filename w.
Proof.
  unfold process_file.
  cbn [input_folder output_folder create_subfolders with_invert].
  apply bind_ext. intros img w1. apply bind_ext. intros img' w2.
  apply bind_ext. intros channels w3. apply bind_ext. intros dir w4.
  unfold bind. rewrite for_each_ext with (g := process_channel cfg
    channels (Str.splitext filename).1 dir).
  - reflexivity.
  - intros sc w5 Hsc. now apply process_channel_same_letters.
Qed.

Lemma run_same_letters w :
  process_texture_channels (with_invert cfg inv') w
  = process_texture_channels cfg w.
Proof.
  unfold process_texture_channels.
  cbn [input_folder output_folder with_invert].
  apply bind_ext. intros _ w1. apply bind_ext. intros names w2.
  unfold bind. rewrite for_each_ext with (g := process_entry cfg).
  - reflexivity.
  - intros f w3 _. unfold process_entry, try_except.
    destruct (eligible f); [|reflexivity].
    now rewrite process_file_same_letters.
Qed.

End SameLetters.

(** X11.  The invert set is used for membership of the four channel
    letters and nothing else: two invert sets that agree on which of
    [r], [g], [b], [a] they hold give the same run, whatever their order,
    their repetitions, their other entries, and whether an empty set is
    given as the empty list or left out. *)
Theorem invert_set_is_membership_only (cfg : config)
    (inv' : option (list string)) (w : world) :
  (forall x, x ∈ channel_letters ->
     (x ∈ default [] inv' <-> x ∈ default [] (invert_channels cfg))) ->
  process_texture_channels (with_invert cfg inv') w
  = process_texture_channels cfg w.
Proof. intros H. now apply run_same_letters. Qed.

Lemma invert_set_is_membership_only_witness :
  process_texture_channels
    (with_invert cfg_scenario (Some ["x"; "r"; "red"; "r"]%string)) w_scenario
  = process_texture_channels cfg_scenario w_scenario.
Proof.
  apply (invert_set_is_membership_only cfg_scenario
           (Some ["x"; "r"; "red"; "r"]%string) w_scenario).
  intros x Hx. simpl. rewrite !elem_of_cons, !elem_of_nil.
  unfold channel_letters in Hx. rewrite !elem_of_cons, elem_of_nil in Hx.
  split.
  - intros [-> | [H | [-> | [H | []]]]]; auto;
      destruct Hx as [Hx | [Hx | [Hx | [Hx | []]]]]; discriminate.
  - intros [H | []]. right; left; exact H.
Defined.

(** X12.  Inversion is its own inverse on 8-bit planes: inverting a
    plane twice gives the plane back, and an inverted plane is again
    made of 8-bit values of the same size. *)
Theorem invert_twice (ch : plane) :
  Forall uint8 (pixels ch) ->
  invert (invert ch) = ch /\
  Forall uint8 (pixels (invert ch)) /\
  width (invert ch) = width ch /\ height (invert ch) = height ch /\
  length (pixels (invert ch)) = length (pixels ch).
Proof.
  intros H. destruct ch as [wd ht px]. unfold invert. simpl in *.
  split; [|split; [|now rewrite length_map]].
  - f_equal. induction H as [|v px Hv _ IH]; [reflexivity|]. simpl.
    rewrite IH. f_equal. rewrite (rsub255_exact v Hv).
    unfold rsub255, uint8 in *. rewrite Z.mod_small; lia.
  - apply Forall_forall. intros v Hv.
    apply list_elem_of_fmap in Hv as (u & -> & _). apply rsub255_uint8.
Qed.

Lemma invert_twice_witness :
  invert (invert (solid 200)) = solid 200 /\
  Forall uint8 (pixels (invert (solid 200))) /\
  width (invert (solid 200)) = width (solid 200) /\
  height (invert (solid 200)) = height (solid 200) /\
  length (pixels (invert (solid 200))) = length (pixels (solid 200)).
Proof.
  apply (invert_twice (solid 200)).
  repeat constructor; unfold uint8; lia.
Defined.

(** ** Sources without alpha, gray sources *)

(** X13.  A source without alpha still gets its alpha file: for an
    image of mode [L] or [RGB] processed to the end, the [_a] output has
    the size of the image and holds the alpha [convert] made, inverted
    when [a] is in the invert set.  That alpha is 255 everywhere when the
    image carries no transparency colour, so that the output is uniform
    (255, or 0 when inverted); when the image carries one, it is 0 at
    the pixels of that colour and 255 at the others. *)
Theorem alpha_of_source_without_alpha (cfg : config) (filename : string)
    (w w' : world) (img : image) :
  process_file cfg filename w = (Ok tt, w') ->
  Image_open (path_join (input_folder cfg) filename) w = (Ok img, w) ->
  image_mode img = L \/ image_mode img = RGB ->
  exists out p,
    head (split img) = Some p /\
    nodes w' !! output_path_of cfg filename "_a"
      = Some (File (Picture (ImgL out))) /\
    width out = width p /\ height out = height p /\
    pixels out =
      map (fun v => if bool_decide ("a"%string ∈ default [] (invert_channels cfg))
                    then 255 - v else v)
          match img with
          | ImgLKey l key =>
              map (fun v => if v =? key then 0 else 255) (pixels l)
          | ImgRGBKey r g b key =>
              keyed_alpha_rgb key (pixels r) (pixels g) (pixels b)
          | _ => repeat 255 (width p * height p)
          end /\
    (has_transparency img = false ->
     pixels out =
       repeat (if bool_decide ("a"%string ∈ default [] (invert_channels cfg))
               then 0 else 255) (width p * height p)).
Proof.
  intros H Hopen Hmode.
  assert (Ht : is_truncated img = false).
  { apply process_file_ok_inv in H as (img' & w1 & Hopen' & Ht & _).
    rewrite Hopen in Hopen'. now injection Hopen' as <-. }
  assert (Hp : exists p alpha,
            head (split img) = Some p /\
            channels_of img !! 3%nat = Some alpha /\
            width alpha = width p /\ height alpha = height p /\
            Forall uint8 (pixels alpha) /\
            pixels alpha =
              match img with
              | ImgLKey l key =>
                  map (fun v => if v =? key then 0 else 255) (pixels l)
              | ImgRGBKey r g b key =>
                  keyed_alpha_rgb key (pixels r) (pixels g) (pixels b)
              | _ => repeat 255 (width p * height p)
              end).
  { assert (Hrep : forall n, Forall uint8 (repeat 255 n)).
    { intros n. apply Forall_forall. intros v Hv.
      apply list_elem_of_In, repeat_spec in Hv. subst. unfold uint8. lia. }
    destruct img; destruct Hmode as [? | ?]; try discriminate;
      eexists _, _; (split; [reflexivity|]); (split; [reflexivity|]);
      (split; [reflexivity|]); (split; [reflexivity|]);
      (split; [|reflexivity]); simpl.
    - apply Hrep.
    - apply Hrep.
    - apply Forall_forall. intros v Hv.
      apply list_elem_of_fmap in Hv as (u & -> & _).
      unfold keyed_alpha, uint8. destruct (u =? key); lia.
    - apply keyed_alpha_rgb_uint8. }
  destruct Hp as (p & alpha & Hhead & Hch & Hw & Hh & Hok & Hpix).
  assert (Hout : pixels (saved_plane cfg "a" alpha) =
            map (fun v => if bool_decide ("a"%string ∈ default [] (invert_channels cfg))
                          then 255 - v else v) (pixels alpha)).
  { unfold saved_plane. rewrite wants_invert_spec.
    destruct (bool_decide _); simpl.
    - apply Forall_fmap_ext_1. eapply Forall_impl; [exact Hok|].
      intros v Hv. now apply rsub255_exact.
    - symmetry. apply map_id. }
  exists (saved_plane cfg "a" alpha), p. split; [exact Hhead|]. split.
  { eapply saved_output; try eassumption; [|reflexivity].
    unfold channel_info.
    repeat first [apply list_elem_of_here | apply list_elem_of_further]. }
  split; [|split; [|split]].
  - unfold saved_plane. now destruct (wants_invert _ _).
  - unfold saved_plane. now destruct (wants_invert _ _).
  - now rewrite Hout, Hpix.
  - intros Hkey. rewrite Hout, Hpix.
    destruct img; try discriminate; rewrite map_repeat;
      now destruct (bool_decide _).
Qed.

Lemma alpha_of_source_without_alpha_witness :
  exists out p,
    head (split keyed_gray) = Some p /\
    nodes (process_file cfg_flat "mask_rmo.png" w_keyed).2
      !! output_path_of cfg_flat "mask_rmo.png" "_a"
      = Some (File (Picture (ImgL out))) /\
    width out = width p /\ height out = height p /\
    pixels out =
      map (fun v => if bool_decide ("a"%string ∈ default [] (invert_channels cfg_flat))
                    then 255 - v else v)
          match keyed_gray with
          | ImgLKey l key =>
              map (fun v => if v =? key then 0 else 255) (pixels l)
          | ImgRGBKey r g b key =>
              keyed_alpha_rgb key (pixels r) (pixels g) (pixels b)
          | _ => repeat 255 (width p * height p)
          end /\
    (has_transparency keyed_gray = false ->
     pixels out =
       repeat (if bool_decide ("a"%string ∈ default [] (invert_channels cfg_flat))
               then 0 else 255) (width p * height p)).
Proof.
  apply (alpha_of_source_without_alpha cfg_flat "mask_rmo.png" w_keyed).
  - vm_compute. reflexivity.
  - vm_compute. reflexivity.
  - left. reflexivity.
Defined.

(** The alpha file of a keyed gray texture is not uniform. *)
Example keyed_alpha_output :
  nodes (process_file cfg_flat "mask_rmo.png" w_keyed).2
    !! ["out"; "mask_rmo_a.png"]%string
  = Some (File (Picture (ImgL (Plane 2 1 [0; 255])))).
Proof. vm_compute. reflexivity. Qed.

(** X14.  A grayscale source is spread over the three colour outputs:
    for an image of mode [L] or [LA] processed to the end, the [_r], [_g]
    and [_b] outputs all hold the gray plane, each inverted or not
    according to its own letter. *)
Theorem colour_outputs_of_gray_source (cfg : config) (filename : string)
    (w w' : world) (img : image) :
  process_file cfg filename w = (Ok tt, w') ->
  Image_open (path_join (input_folder cfg) filename) w = (Ok img, w) ->
  image_mode img = L \/ image_mode img = LA ->
  exists gray,
    head (split img) = Some gray /\
    nodes w' !! output_path_of cfg filename "_r"
      = Some (File (Picture (ImgL (saved_plane cfg "r" gray)))) /\
    nodes w' !! output_path_of cfg filename "_g"
      = Some (File (Picture (ImgL (saved_plane cfg "g" gray)))) /\
    nodes w' !! output_path_of cfg filename "_b"
      = Some (File (Picture (ImgL (saved_plane cfg "b" gray)))).
Proof.
  intros H Hopen Hmode.
  assert (Hp : exists p, head (split img) = Some p /\
                         channels_of img !! 0%nat = Some p /\
                         channels_of img !! 1%nat = Some p /\
                         channels_of img !! 2%nat = Some p).
  { assert (Ht : is_truncated img = false).
    { pose proof H as H'.
      apply process_file_ok_inv in H' as (img' & w1 & Hopen' & Ht & _).
      rewrite Hopen in Hopen'. now injection Hopen' as <-. }
    destruct img; try discriminate Ht;
      destruct Hmode as [? | ?]; try discriminate;
      eexists; repeat split. }
  destruct Hp as (p & Hhead & H0 & H1 & H2).
  exists p. split; [exact Hhead|].
  split; [|split].
  - apply (saved_output cfg filename w w' img "_r" 0 "r" p H Hopen);
      [|reflexivity | exact H0].
    unfold channel_info. apply list_elem_of_here.
  - apply (saved_output cfg filename w w' img "_g" 1 "g" p H Hopen);
      [|reflexivity | exact H1].
    unfold channel_info. apply list_elem_of_further, list_elem_of_here.
  - apply (saved_output cfg filename w w' img "_b" 2 "b" p H Hopen);
      [|reflexivity | exact H2].
    unfold channel_info.
    do 2 apply list_elem_of_further. apply list_elem_of_here.
Qed.

Lemma colour_outputs_of_gray_source_witness :
  let w := World (<[["tex"; "g_rmo.png"]%string := File (Picture (ImgL (solid 7)))]>
                   (<[["tex"%string] := Dir]> ∅)) open_env [] in
  let w' := (process_file cfg_in_place "g_rmo.png" w).2 in
  exists gray,
    head (split (ImgL (solid 7))) = Some gray /\
    nodes w' !! output_path_of cfg_in_place "g_rmo.png" "_r"
      = Some (File (Picture (ImgL (saved_plane cfg_in_place "r" gray)))) /\
    nodes w' !! output_path_of cfg_in_place "g_rmo.png" "_g"
      = Some (File (Picture (ImgL (saved_plane cfg_in_place "g" gray)))) /\
    nodes w' !! output_path_of cfg_in_place "g_rmo.png" "_b"
      = Some (File (Picture (ImgL (saved_plane cfg_in_place "b" gray)))).
Proof.
  intros w w'.
  apply (colour_outputs_of_gray_source cfg_in_place "g_rmo.png" w w'
           (ImgL (solid 7))).
  - vm_compute. reflexivity.
  - vm_compute. reflexivity.
  - left. reflexivity.
Defined.

(** ** Writing into the source folder *)

Lemma output_name_eligible (filename suffix : string) :
  eligible filename = true -> suffix ∈ suffixes ->
  eligible ((Str.splitext filename).1 +:+ suffix +:+ ".png")%string = true.
Proof.
  intros He Hs. unfold eligible.
  rewrite output_name_lower by exact Hs.
  rewrite (StrFacts.contains_app_l _ _ _ (base_keeps_marker _ He)).
  apply StrFacts.endswith_any_spec. exists ".png"%string. split.
  - unfold supported_formats. apply list_elem_of_here.
  - exists (Str.lower (Str.splitext filename).1 +:+ suffix)%string.
    now rewrite StrFacts.app_assoc.
Qed.

Lemma child_name_snoc (d : path) (n : string) : child_name d (d ++ [n]) = Some n.
Proof.
  unfold child_name. rewrite drop_app_length, take_app_length.
  now rewrite bool_decide_eq_true_2.
Qed.

(** [os.listdir] lists every name that lies directly in the folder. *)
Lemma children_elem w d n :
  is_Some (nodes w !! (d ++ [n])) -> n ∈ children w d.
Proof.
  intros [x Hx]. unfold children. apply list_elem_of_omap.
  exists (d ++ [n], x). split.
  - now apply elem_of_map_to_list.
  - apply child_name_snoc.
Qed.

(** X15.  Writing into the source folder feeds the next run.  Without
    subfolders and with the destination set to the source folder, the
    four outputs of a file processed to the end are new entries of the
    source folder, their names pass the filter, and they hold grayscale
    images, which open as such wherever the file may be read: a later
    run takes them as sources. *)
Theorem outputs_feed_next_run (cfg : config) (filename : string)
    (w w' : world) :
  create_subfolders cfg = false ->
  output_folder cfg = input_folder cfg ->
  eligible filename = true ->
  process_file cfg filename w = (Ok tt, w') ->
  forall suffix, suffix ∈ suffixes ->
    let name := ((Str.splitext filename).1 +:+ suffix +:+ ".png")%string in
    name ∈ children w' (input_folder cfg) /\
    eligible name = true /\
    exists ch,
      nodes w' !! path_join (input_folder cfg) name
        = Some (File (Picture (ImgL ch))) /\
      (path_join (input_folder cfg) name ∉ unreadable w ->
       Image_open (path_join (input_folder cfg) name) w'
       = (Ok (ImgL ch), w')).
Proof.
  intros Hcs Hout He H suffix Hs name.
  destruct (every_output_saved cfg filename w w' suffix H Hs) as [ch Hch].
  unfold output_path_of, output_dir_of in Hch. rewrite Hcs, Hout in Hch.
  fold name in Hch. split; [|split].
  - apply children_elem. unfold path_join in Hch. rewrite Hch. eauto.
  - now apply output_name_eligible.
  - exists ch. split; [exact Hch|]. intros Hr.
    unfold Image_open. rewrite lookup_node_ne
      by (unfold path_join; now destruct (input_folder cfg)).
    rewrite Hch.
    rewrite (unreadable_env w w' (keeps_env_file cfg filename He _ _ _ H)).
    now rewrite bool_decide_eq_false_2 by exact Hr.
Qed.

Lemma outputs_feed_next_run_witness :
  let cfg := Config ["tex"%string] ["tex"%string] None false in
  let w' := (process_file cfg "wall_rmo.png" w_rgb).2 in
  let name := ((Str.splitext "wall_rmo.png").1 +:+ "_g" +:+ ".png")%string in
  name ∈ children w' (input_folder cfg) /\
  eligible name = true /\
  exists ch,
    nodes w' !! path_join (input_folder cfg) name
      = Some (File (Picture (ImgL ch))) /\
    (path_join (input_folder cfg) name ∉ unreadable w_rgb ->
     Image_open (path_join (input_folder cfg) name) w'
     = (Ok (ImgL ch), w')).
Proof.
  intros cfg w'.
  apply (outputs_feed_next_run cfg "wall_rmo.png" w_rgb w').
  - reflexivity.
  - reflexivity.
  - reflexivity.
  - vm_compute. reflexivity.
  - unfold suffixes, channel_info. simpl.
    apply list_elem_of_further, list_elem_of_here.
Defined.
(** ** Accounting of the log *)

Lemma count_saved_app l1 l2 :
  count_saved (l1 ++ l2) = (count_saved l1 + count_saved l2)%nat.
Proof. unfold count_saved. now rewrite List.filter_app, length_app. Qed.

Lemma count_processed_app l1 l2 :
  count_processed (l1 ++ l2) = (count_processed l1 + count_processed l2)%nat.
Proof. unfold count_processed. now rewrite List.filter_app, length_app. Qed.

Lemma count_failed_app l1 l2 :
  count_failed (l1 ++ l2) = (count_failed l1 + count_failed l2)%nat.
Proof. unfold count_failed. now rewrite List.filter_app, length_app. Qed.

Lemma counts_of_saved_lines (outs : list (path * plane)) :
  count_saved (map (fun pc => Saved pc.1) outs) = length outs /\
  count_processed (map (fun pc => Saved pc.1) outs) = 0%nat /\
  count_failed (map (fun pc => Saved pc.1) outs) = 0%nat.
Proof.
  unfold count_saved, count_processed, count_failed.
  induction outs as [|x outs (IH1 & IH2 & IH3)]; [now repeat split|].
  simpl. now rewrite IH1, IH2, IH3.
Qed.

Lemma outputs_of_length cfg filename img :
  is_truncated img = false ->
  length (outputs_of cfg filename (channels_of img)) = 4%nat.
Proof.
  intros Ht. destruct (channels_of_four img Ht) as (r & g & b & a & ->).
  reflexivity.
Qed.

Lemma process_file_counts cfg filename w r w' :
  process_file cfg filename w = (r, w') ->
  exists l,
    log w' = log w ++ l /\ count_failed l = 0%nat /\
    match r with
    | Ok _ => count_processed l = 1%nat /\ count_saved l = 4%nat
    | Raise _ =>
        count_processed l = 0%nat /\ (count_saved l <= 4)%nat /\
        (stdout w (Processed filename) = None -> (count_saved l < 4)%nat)
    end.
Proof.
  intros H.
  apply process_file_stages in H
    as [(e & -> & -> & _) |
        (img & _ & Ht &
         [(e & -> & _ & He) | (w1 & k & j & Hd & _ & _ & L & Hk)])].
  - exists []. rewrite app_nil_r. repeat split; unfold count_saved; simpl; lia.
  - exists []. apply quiet_ensure_dir in He as [E _].
    rewrite app_nil_r.
    repeat split; [exact E|..]; unfold count_saved; simpl; lia.
  - assert (E1 : log w1 = log w).
    { destruct (create_subfolders cfg); [|now subst].
      now apply quiet_ensure_dir in Hd as [E _]. }
    set (outs := take k (outputs_of cfg filename (channels_of img))) in *.
    destruct (counts_of_saved_lines outs) as (Cs & Cp & Cf).
    assert (Hlen : length outs = Nat.min k 4).
    { unfold outs. now rewrite length_take, outputs_of_length. }
    rewrite save_all_log, E1, <- app_assoc in L.
    eexists. split; [exact L|].
    rewrite count_failed_app, count_processed_app, count_saved_app.
    rewrite Cs, Cp, Cf, Hlen.
    destruct Hk as [(-> & -> & ->) |
                    [(e & -> & -> & Hlt) |
                     [(e & p & -> & _ & -> & Hlt) | (e & -> & Hs & -> & ->)]]];
      repeat split; try (simpl; lia);
      change (count_saved []) with 0%nat; try lia; intros Hn; congruence.
Qed.

Lemma process_entry_counts cfg filename w r w' :
  process_entry cfg filename w = (r, w') ->
  exists l,
    log w' = log w ++ l /\
    (4 * count_processed l <= count_saved l)%nat /\
    ((forall x, is_saved x = false -> stdout w x = None) ->
     (count_saved l <= 4 * count_processed l + 3 * count_failed l)%nat).
Proof.
  destruct (eligible filename) eqn:He.
  2: { rewrite process_entry_skip by exact He. intros H.
       injection H as <- <-. exists []. rewrite app_nil_r.
       repeat split; unfold count_saved, count_processed, count_failed;
         simpl; lia. }
  rewrite process_entry_eligible by exact He.
  destruct (process_file cfg filename w) as [[[]|e] w1] eqn:H; intros H1;
    pose proof (keeps_env_file cfg filename He _ _ _ H) as Henv;
    apply process_file_counts in H as (l & E & Cf & Cp & Cs).
  - injection H1 as <- <-. exists l. repeat split; try assumption; lia.
  - destruct Cs as [Cs Cs'].
    apply print_inv in H1 as [(-> & Hs & ->) | (e' & -> & Hs & ->)].
    + exists (l ++ [ErrorProcessing filename e]).
      cbn [log]. rewrite E, <- app_assoc. split; [reflexivity|].
      rewrite count_failed_app, count_processed_app, count_saved_app, Cf, Cp.
      change (count_saved [ErrorProcessing filename e]) with 0%nat.
      change (count_failed [ErrorProcessing filename e]) with 1%nat.
      change (count_processed [ErrorProcessing filename e]) with 0%nat.
      split; [lia|]. intros Hall.
      specialize (Cs' (Hall (Processed filename) eq_refl)). lia.
    + exists l. split; [exact E|]. split; [lia|]. intros Hall.
      rewrite (stdout_env w w1 _ Henv) in Hs.
      rewrite (Hall (ErrorProcessing filename e) eq_refl) in Hs.
      discriminate.
Qed.

Lemma directory_loop_counts cfg names w r w' :
  for_each names (process_entry cfg) w = (r, w') ->
  exists l,
    log w' = log w ++ l /\
    (4 * count_processed l <= count_saved l)%nat /\
    ((forall x, is_saved x = false -> stdout w x = None) ->
     (count_saved l <= 4 * count_processed l + 3 * count_failed l)%nat).
Proof.
  revert w; induction names as [|f names IH]; intros w H.
  - injection H as <- <-. exists []. rewrite app_nil_r.
    repeat split; unfold count_saved, count_processed, count_failed;
      simpl; lia.
  - cbn [for_each] in H.
    apply bind_inv in H as [([] & w1 & H1 & H) | (e & H1 & ->)].
    + pose proof (process_entry_counts _ _ _ _ _ H1) as (l1 & E1 & A1 & B1).
      apply IH in H as (l2 & E2 & A2 & B2).
      exists (l1 ++ l2). split; [now rewrite E2, E1, app_assoc|].
      rewrite count_failed_app, count_processed_app, count_saved_app.
      split; [lia|]. intros Hall. specialize (B1 Hall).
      assert (Hall1 : forall x, is_saved x = false -> stdout w1 x = None).
      { intros x Hx. rewrite (stdout_entry _ _ _ _ _ _ H1). now apply Hall. }
      specialize (B2 Hall1). lia.
    + now apply process_entry_counts in H1.
Qed.

(** X16.  The log accounts for the outputs: among the lines a call
    adds, each [Processed] line comes after four [Saved] lines, so the
    number of [Saved] lines is at least four times the number of files
    processed, however the call ends; and when the standard output takes
    every [Processed] line and every error line, each file that failed
    has an error line and at most three [Saved] lines, so the number of
    [Saved] lines is at most four times the number of files processed
    plus three times the number of files that failed. *)
Theorem log_accounts_for_outputs (cfg : config) (w w' : world)
    (r : result pyvalue) :
  process_texture_channels cfg w = (r, w') ->
  exists l,
    log w' = log w ++ l /\
    (4 * count_processed l <= count_saved l)%nat /\
    ((forall x, is_saved x = false -> stdout w x = None) ->
     (count_saved l <= 4 * count_processed l + 3 * count_failed l)%nat).
Proof.
  intros H.
  apply process_texture_channels_inv in H
    as [(e & _ & E & _) | (w0 & names & rl & H0 & _ & Hloop & _)].
  - exists []. rewrite app_nil_r.
    repeat split; [exact E|..];
      unfold count_saved, count_processed, count_failed; simpl; lia.
  - apply directory_loop_counts in Hloop as (l & E2 & A & B).
    apply quiet_ensure_dir in H0 as [E0 Henv].
    exists l. split; [congruence|]. split; [exact A|].
    intros Hall. apply B. intros x Hx.
    rewrite (stdout_env w w0 _ Henv). now apply Hall.
Qed.

Lemma log_accounts_for_outputs_witness :
  exists l,
    log (process_texture_channels cfg_scenario w_batch).2 = log w_batch ++ l /\
    (4 * count_processed l <= count_saved l)%nat /\
    ((forall x, is_saved x = false -> stdout w_batch x = None) ->
     (count_saved l <= 4 * count_processed l + 3 * count_failed l)%nat).
Proof.
  apply (log_accounts_for_outputs cfg_scenario w_batch _ (Ok PyNone)).
  vm_compute. reflexivity.
Defined.

Lemma closed_names_skip_saved l :
  omap closed_name (List.filter (fun x => negb (is_saved x)) l)
  = omap closed_name l.
Proof.
  induction l as [|x l IH]; [reflexivity|].
  destruct x; simpl; [exact IH | f_equal; exact IH..].
Qed.

Lemma closed_names_of_outcomes (os : list (string * result unit)) :
  omap closed_name (map closing_line os) = os.*1.
Proof.
  induction os as [|[f [[]|e]] os IH]; [reflexivity|..]; simpl;
    f_equal; exact IH.
Qed.

(** X17.  The entries are closed once each, in the order of the
    listing: the file names of the [Processed] and error lines a
    completed call adds to the log are, in order, the eligible names it
    enumerated. *)
Theorem log_closes_each_entry_in_order (cfg : config) (w w' : world)
    (r : pyvalue) :
  process_texture_channels cfg w = (Ok r, w') ->
  exists l, log w' = log w ++ l /\ omap closed_name l = snapshot cfg w.
Proof.
  intros H.
  apply process_texture_channels_ok in H as (_ & w0 & names & H0 & Hl & Hloop).
  pose proof Hl as Hl'.
  apply listdir_ok_inv in Hl' as (_ & Hnames & Hin & Hread).
  assert (E0 : snapshot cfg w = List.filter eligible names).
  { unfold snapshot. rewrite (bind_ok _ _ _ _ _ H0). now rewrite Hl. }
  apply directory_loop_log in Hloop as (l & E & Hclose & _).
  exists l. split.
  - apply quiet_ensure_dir in H0 as [E1 _]. congruence.
  - rewrite <- closed_names_skip_saved, Hclose, closed_names_of_outcomes.
    now rewrite outcomes_names, E0.
Qed.

Lemma log_closes_each_entry_in_order_witness :
  exists l,
    log (process_texture_channels cfg_scenario w_batch).2 = log w_batch ++ l /\
    omap closed_name l = snapshot cfg_scenario w_batch.
Proof.
  apply (log_closes_each_entry_in_order cfg_scenario w_batch _ PyNone).
  vm_compute. reflexivity.
Defined.
(** ** The log tells the truth *)

Global Instance log_holds_refl : Reflexive log_holds.
Proof.
  intros w. exists []. rewrite app_nil_r. repeat split; [|auto].
  intros p Hp. now apply elem_of_nil in Hp.
Qed.

Global Instance log_holds_trans : Transitive log_holds.
Proof.
  intros a b c (l1 & E1 & S1 & G1) (l2 & E2 & S2 & G2).
  exists (l1 ++ l2). split; [now rewrite E2, E1, app_assoc|]. split.
  - intros p Hp. apply elem_of_app in Hp as [Hp | Hp]; auto.
  - auto.
Qed.

Lemma log_holds_quiet w w' :
  log w' = log w -> (forall p, holds_gray w p -> holds_gray w' p) ->
  log_holds w w'.
Proof.
  intros E G. exists []. rewrite app_nil_r. repeat split; [exact E | | exact G].
  intros p Hp. now apply elem_of_nil in Hp.
Qed.

Lemma log_holds_mkdir p : respects log_holds (mkdir p).
Proof.
  intros w r w' H.
  apply mkdir_inv in H as [(_ & -> & Hn & _) | (e & _ & ->)]; [|reflexivity].
  apply lookup_node_None in Hn as [_ Hn].
  apply log_holds_quiet; [reflexivity|]. intros q [ch Hq]. exists ch. simpl.
  rewrite lookup_insert_ne; [exact Hq | congruence].
Qed.

Lemma log_holds_write ch p :
  respects log_holds (save ch p ;;; print (Saved p)).
Proof.
  intros w r w' H.
  apply bind_inv in H as [([] & w1 & H1 & H) | (e & H1 & _)].
  - apply save_inv in H1 as [(_ & -> & _) | (e & ? & _)]; [|discriminate].
    assert (G : forall q, holds_gray w q ->
              holds_gray (World (<[p := File (Picture (ImgL ch))]> (nodes w))
                                (env w) (log w)) q).
    { intros q [c Hq]. unfold holds_gray. simpl.
      destruct (decide (p = q)) as [<- | Hne].
      - rewrite lookup_insert_eq. eauto.
      - rewrite lookup_insert_ne by assumption. eauto. }
    apply print_inv in H as [(_ & _ & ->) | (e & _ & _ & ->)].
    + exists [Saved p]. split; [reflexivity|]. split; [|exact G].
      intros q Hq. apply list_elem_of_singleton in Hq. injection Hq as ->.
      exists ch. simpl. apply lookup_insert_eq.
    + apply log_holds_quiet; [reflexivity | exact G].
  - apply save_inv in H1 as [(? & _) | (_ & _ & ->)]; [discriminate|].
    reflexivity.
Qed.

Lemma log_holds_print l : is_saved l = false -> respects log_holds (print l).
Proof.
  intros Hl w r w' H.
  apply print_inv in H as [(_ & _ & ->) | (e & _ & _ & ->)]; [|reflexivity].
  exists [l]. split; [reflexivity|]. split; [|auto].
  intros p Hp. apply list_elem_of_singleton in Hp. subst l. discriminate.
Qed.

(** X18.  The log tells the truth about the outputs: every path a call
    reports as [Saved] holds a grayscale image when the call is over,
    whatever happened after it was written. *)
Theorem saved_lines_name_gray_images (cfg : config) (w w' : world)
    (r : result pyvalue) :
  process_texture_channels cfg w = (r, w') ->
  exists l,
    log w' = log w ++ l /\
    forall p, Saved p ∈ l ->
      exists ch, nodes w' !! p = Some (File (Picture (ImgL ch))).
Proof.
  intros H.
  assert (Hh : log_holds w w').
  { eapply (run_respects log_holds cfg); [| | | |exact H].
    - apply log_holds_mkdir.
    - intros ch f sfx _ _. apply log_holds_write.
    - intros f. now apply log_holds_print.
    - intros f e. now apply log_holds_print. }
  destruct Hh as (l & E & S & _). now exists l.
Qed.

Lemma saved_lines_name_gray_images_witness :
  exists l,
    log (process_texture_channels cfg_scenario w_batch).2 = log w_batch ++ l /\
    forall p, Saved p ∈ l ->
      exists ch, nodes (process_texture_channels cfg_scenario w_batch).2 !! p
                 = Some (File (Picture (ImgL ch))).
Proof.
  apply (saved_lines_name_gray_images cfg_scenario w_batch _ (Ok PyNone)).
  vm_compute. reflexivity.
Defined.
